(** * aicommits: configuration store and completion client

    A shallow embedding of [src/utils/config.ts] and [src/utils/openai.ts].

    - A JavaScript string is the list of its UTF-16 code units ([list N]);
      [js "abc"] turns a literal into that representation.
    - [throw]/[catch] is an explicit [Result]; the persisted file is threaded
      as a state; the single HTTPS round trip is an event of a small
      interaction type ([Async]).
    - The INI codec, the JSON codec and the prompt generator are libraries or
      modules outside these two files: they are parameters of the sections
      that use them. *)

From Stdlib Require Import NArith ZArith QArith Ascii String DecimalString.
From stdpp Require Import base option list gmap.

Local Open Scope N_scope.

(** ** Strings as UTF-16 code units *)

Abbreviation jsstring := (list N).

Fixpoint js (s : string) : jsstring :=
  match s with
  | EmptyString => []
  | String a rest => N_of_ascii a :: js rest
  end.

(** [s.startsWith(p)] *)
Fixpoint startsWith (s p : jsstring) : bool :=
  match p, s with
  | [], _ => true
  | _ :: _, [] => false
  | b :: p', a :: s' => (a =? b) && startsWith s' p'
  end.

Definition is_digit (c : N) : bool := (48 <=? c) && (c <=? 57).
Definition is_upper (c : N) : bool := (65 <=? c) && (c <=? 90).
Definition is_lower (c : N) : bool := (97 <=? c) && (c <=? 122).

(** [\w] without the [u] and [i] flags: [[A-Za-z0-9_]]. *)
Definition is_word (c : N) : bool :=
  is_upper c || is_lower c || is_digit c || (c =? 95).

(** [/^\d+$/.test(s)]: [$] without the [m] flag is the end of the input. *)
Definition re_digits_test (s : jsstring) : bool :=
  match s with
  | [] => false
  | _ :: _ => forallb is_digit s
  end.

(** [/^[a-z-]+$/i.test(s)]: without the [u] flag a code unit above 127 never
    canonicalises to an ASCII letter, so the class is the ASCII letters and
    the dash. *)
Definition re_locale_test (s : jsstring) : bool :=
  match s with
  | [] => false
  | _ :: _ => forallb (fun c => is_upper c || is_lower c || (c =? 45)) s
  end.

(** [/^https?:\/\//.test(s)] *)
Definition re_http_test (s : jsstring) : bool :=
  startsWith s (js "http://") || startsWith s (js "https://").

(** [s.toLowerCase()] on the ASCII range.  The Unicode mappings of the code
    units above 127 are left out: none of them lower-cases to a letter of
    [true] or [false], the only strings the result is compared with. *)
Definition toLowerCase (s : jsstring) : jsstring :=
  map (fun c => if is_upper c then c + 32 else c) s.

(** ** Numbers

    The numbers of this program are non-negative integers, or [Infinity] when
    a digit string exceeds the range of a double. *)

Inductive JsNumber : Type :=
| Finite (n : N)
| Infinity.

Global Instance JsNumber_eq_dec : EqDecision JsNumber.
Proof. solve_decision. Defined.

(** The mathematical value of a string of decimal digits. *)
Definition decimal_value (s : jsstring) : N :=
  fold_left (fun acc c => 10 * acc + (c - 48)) s 0.

(** Rounding of a non-negative integer to the nearest double, ties to even:
    53 bits of mantissa are kept, and a result of [2^1024] or more is
    [Infinity]. *)
Definition round_to_double (n : N) : JsNumber :=
  if n <? 2 ^ 53 then Finite n
  else
    let e := N.log2 n - 52 in
    let q := N.shiftr n e in
    let r := n mod 2 ^ e in
    let half := 2 ^ (e - 1) in
    let q' := if (half <? r) || ((r =? half) && N.odd q) then q + 1 else q in
    let m := q' * 2 ^ e in
    if 2 ^ 1024 <=? m then Infinity else Finite m.

(** [Number(s)] for a string [s] of decimal digits. *)
Definition Number_of_digits (s : jsstring) : JsNumber :=
  round_to_double (decimal_value s).

Definition num_leb (a b : JsNumber) : bool :=
  match a, b with
  | Finite x, Finite y => x <=? y
  | Finite _, Infinity => true
  | Infinity, Finite _ => false
  | Infinity, Infinity => true
  end.

Definition num_ltb (a b : JsNumber) : bool :=
  match a, b with
  | Finite x, Finite y => x <? y
  | Finite _, Infinity => true
  | Infinity, _ => false
  end.

(** ** Values, errors, results *)

Inductive JsValue : Type :=
| VUndefined
| VString (s : jsstring)
| VNumber (n : JsNumber)
| VBool (b : bool).

Global Instance JsValue_eq_dec : EqDecision JsValue.
Proof. solve_decision. Defined.

(** What is thrown.  [NodeError] is an error object of the transport layer
    with its [code], [hostname] and [syscall] properties; [SyntaxError] is
    what [JSON.parse] throws. *)
Inductive Error : Type :=
| KnownError (message : jsstring)
| NodeError (code hostname syscall : option jsstring)
| SyntaxError.

Global Instance Error_eq_dec : EqDecision Error.
Proof. solve_decision. Defined.

Inductive Result (A : Type) : Type :=
| Ok (a : A)
| Err (e : Error).
Arguments Ok {A} a.
Arguments Err {A} e.

Global Instance Result_ret : MRet Result := fun _ a => Ok a.
Global Instance Result_bind : MBind Result := fun _ _ f m =>
  match m with
  | Ok a => f a
  | Err e => Err e
  end.

(** ** config.ts: the per-key parsers *)

Definition dquote : jsstring := [34].

Definition parseAssert (name : jsstring) (condition : bool) (message : jsstring)
  : Result unit :=
  if condition then Ok tt
  else Err (KnownError
              (js "Invalid config property " ++ name ++ js ": " ++ message)).

Definition commitTypes : list jsstring := [ []; js "conventional" ].

Abbreviation Parser := (option jsstring -> Result JsValue).

Module configParsers.

Definition OPENAI_KEY (key : option jsstring) : Result JsValue :=
  match key with
  | None | Some [] => Ok (VString [])
  | Some key =>
      _ ← parseAssert (js "OPENAI_KEY") (startsWith key (js "sk-"))
            (js "Must start with " ++ dquote ++ js "sk-" ++ dquote);
      Ok (VString key)
  end.

Definition locale (locale : option jsstring) : Result JsValue :=
  match locale with
  | None | Some [] => Ok (VString (js "en"))
  | Some locale =>
      _ ← parseAssert (js "locale") (negb (bool_decide (locale = [])))
            (js "Cannot be empty");
      _ ← parseAssert (js "locale") (re_locale_test locale)
            (js "Must be a valid locale (letters and dashes/underscores). You can consult the list of codes in: https://wikipedia.org/wiki/List_of_ISO_639-1_codes");
      Ok (VString locale)
  end.

Definition generate (count : option jsstring) : Result JsValue :=
  match count with
  | None | Some [] => Ok (VNumber (Finite 1))
  | Some count =>
      _ ← parseAssert (js "generate") (re_digits_test count)
            (js "Must be an integer");
      let parsed := Number_of_digits count in
      _ ← parseAssert (js "generate") (num_ltb (Finite 0) parsed)
            (js "Must be greater than 0");
      _ ← parseAssert (js "generate") (num_leb parsed (Finite 5))
            (js "Must be less or equal to 5");
      Ok (VNumber parsed)
  end.

Definition type (type : option jsstring) : Result JsValue :=
  match type with
  | None | Some [] => Ok (VString [])
  | Some type =>
      _ ← parseAssert (js "type") (bool_decide (type ∈ commitTypes))
            (js "Invalid commit type");
      Ok (VString type)
  end.

Definition proxy (url : option jsstring) : Result JsValue :=
  match url with
  | None | Some [] => Ok VUndefined
  | Some url =>
      _ ← parseAssert (js "proxy") (re_http_test url)
            (js "Must be a valid URL");
      Ok (VString url)
  end.

Definition model (model : option jsstring) : Result JsValue :=
  match model with
  | None | Some [] => Ok (VString (js "gpt-3.5-turbo"))
  | Some model => Ok (VString model)
  end.

Definition timeout (timeout : option jsstring) : Result JsValue :=
  match timeout with
  | None | Some [] => Ok (VNumber (Finite 10000))
  | Some timeout =>
      _ ← parseAssert (js "timeout") (re_digits_test timeout)
            (js "Must be an integer");
      let parsed := Number_of_digits timeout in
      _ ← parseAssert (js "timeout") (num_leb (Finite 500) parsed)
            (js "Must be greater than 500ms");
      Ok (VNumber parsed)
  end.

Definition max_length (maxLength : option jsstring) : Result JsValue :=
  match maxLength with
  | None | Some [] => Ok (VNumber (Finite 50))
  | Some maxLength =>
      _ ← parseAssert (js "max-length") (re_digits_test maxLength)
            (js "Must be an integer");
      let parsed := Number_of_digits maxLength in
      _ ← parseAssert (js "max-length") (num_leb (Finite 20) parsed)
            (js "Must be greater than 20 characters");
      Ok (VNumber parsed)
  end.

End configParsers.

Module azureConfigParsers.

(** The guard is [useAzure === undefined], not [!useAzure]: the empty
    string goes on to the assertion. *)
Definition USE_AZURE (useAzure : option jsstring) : Result JsValue :=
  match useAzure with
  | None => Ok (VBool false)
  | Some useAzure =>
      let normalizedValue := toLowerCase useAzure in
      _ ← parseAssert (js "USE_AZURE")
            (bool_decide (normalizedValue = js "true")
             || bool_decide (normalizedValue = js "false"))
            (js "Must be true or false");
      Ok (VBool (bool_decide (normalizedValue = js "true")))
  end.

Definition AZURE_OPENAI_KEY (key : option jsstring) : Result JsValue :=
  match key with
  | None | Some [] => Ok (VString [])
  | Some key =>
      _ ← parseAssert (js "AZURE_OPENAI_KEY") (0 <? N.of_nat (length key))
            (js "Cannot be empty");
      Ok (VString key)
  end.

Definition AZURE_OPENAI_ENDPOINT (endpoint : option jsstring)
  : Result JsValue :=
  match endpoint with
  | None | Some [] => Ok (VString [])
  | Some endpoint =>
      _ ← parseAssert (js "AZURE_OPENAI_ENDPOINT") (re_http_test endpoint)
            (js "Must be a valid URL");
      Ok (VString endpoint)
  end.

End azureConfigParsers.

(** [{ ...azureConfigParsers, ...configParsers }], in the order of
    [Object.keys]. *)
Definition combinedParsers : list (jsstring * Parser) :=
  [ (js "USE_AZURE", azureConfigParsers.USE_AZURE);
    (js "AZURE_OPENAI_KEY", azureConfigParsers.AZURE_OPENAI_KEY);
    (js "AZURE_OPENAI_ENDPOINT", azureConfigParsers.AZURE_OPENAI_ENDPOINT);
    (js "OPENAI_KEY", configParsers.OPENAI_KEY);
    (js "locale", configParsers.locale);
    (js "generate", configParsers.generate);
    (js "type", configParsers.type);
    (js "proxy", configParsers.proxy);
    (js "model", configParsers.model);
    (js "timeout", configParsers.timeout);
    (js "max-length", configParsers.max_length) ].

(** [hasOwn(combinedParsers, key)] and [combinedParsers[key]] in one
    look-up: [None] when [key] is not an own property. *)
Fixpoint parser_of (parsers : list (jsstring * Parser)) (key : jsstring)
  : option Parser :=
  match parsers with
  | [] => None
  | (k, p) :: rest => if decide (k = key) then Some p else parser_of rest key
  end.

(** ** config.ts: reading and writing the configuration *)

(** [RawConfig] maps a key to an optional string, as its type declares; a
    property that is missing reads as [undefined]. *)
Abbreviation RawConfig := (gmap jsstring jsstring).
Abbreviation ParsedConfig := (gmap jsstring JsValue).

(** [for (const x of l) { s = body(s, x) }], leaving at the first throw. *)
Fixpoint for_of {S E : Type} (body : S -> E -> Result S) (l : list E) (s : S)
  : Result S :=
  match l with
  | [] => Ok s
  | x :: rest => s' ← body s x; for_of body rest s'
  end.

(** [object[key]]: a missing property reads as [undefined]. *)
Definition property (object : ParsedConfig) (key : jsstring) : JsValue :=
  default VUndefined (object !! key).

Definition truthy (v : JsValue) : bool :=
  match v with
  | VUndefined => false
  | VString s => negb (bool_decide (s = []))
  | VNumber n => negb (bool_decide (n = Finite 0))
  | VBool b => b
  end.

Definition missing_openai_key : Error :=
  KnownError (js "Please set your OpenAI API key via `aicommits config set OPENAI_KEY=<your token>` or set your Azure OpenAI configurations.").

Definition missing_azure_key : Error :=
  KnownError (js "Please set your Azure OpenAI configurations via aicommits config set AZURE_OPENAI_KEY=<your token>").

Definition missing_azure_endpoint : Error :=
  KnownError (js "Please set your Azure OpenAI configurations via aicommits config set AZURE_OPENAI_ENDPOINT='<your-deployment-full-url>'").

(** [cliConfig?.[key] ?? config[key]] *)
Definition raw_value (cliConfig : option RawConfig) (config : RawConfig)
    (key : jsstring) : option jsstring :=
  match cliConfig ≫= (fun c => c !! key) with
  | Some value => Some value
  | None => config !! key
  end.

Section ConfigStore.

(** [ini.parse] and [ini.stringify] of the [ini] package. *)
Variable ini_parse : jsstring -> RawConfig.
Variable ini_stringify : ParsedConfig -> jsstring.

(** The state is the content of the file at [configPath], [None] while the
    file does not exist. *)
Definition readConfigFile (file : option jsstring) : RawConfig :=
  match file with
  | None => ∅
  | Some configString => ini_parse configString
  end.

(** The body of the loop of [getConfig]. *)
Definition getConfig_body (cliConfig : option RawConfig) (suppressErrors : bool)
    (config : RawConfig) (parsedConfig : ParsedConfig)
    (entry : jsstring * Parser) : Result ParsedConfig :=
  let '(key, parser) := entry in
  let value := raw_value cliConfig config key in
  if suppressErrors then
    match parser value with
    | Ok v => Ok (<[key := v]> parsedConfig)
    | Err _ => Ok parsedConfig
    end
  else
    v ← parser value; Ok (<[key := v]> parsedConfig).

Definition getConfig (file : option jsstring) (cliConfig : option RawConfig)
    (suppressErrors : option bool) : Result ParsedConfig :=
  let config := readConfigFile file in
  let suppress := default false suppressErrors in
  parsedConfig ← for_of (getConfig_body cliConfig suppress config)
                   combinedParsers ∅;
  let openaiKey := property parsedConfig (js "OPENAI_KEY") in
  let useAzure := property parsedConfig (js "USE_AZURE") in
  _ ← (if bool_decide (openaiKey = VString []) && negb (truthy useAzure)
       then if negb suppress then Err missing_openai_key else Ok tt
       else Ok tt);
  let azureOpenaiKey := property parsedConfig (js "AZURE_OPENAI_KEY") in
  let azureOpenaiEndpoint :=
    property parsedConfig (js "AZURE_OPENAI_ENDPOINT") in
  _ ← (if truthy useAzure
       then if negb suppress
            then if bool_decide (azureOpenaiKey = VString [])
                 then Err missing_azure_key
                 else if bool_decide (azureOpenaiEndpoint = VString [])
                      then Err missing_azure_endpoint
                      else Ok tt
            else Ok tt
       else Ok tt);
  Ok parsedConfig.

(** The body of the loop of [setConfigs]; the parsed value, not the raw
    string, is stored. *)
Definition setConfigs_body (config : ParsedConfig)
    (keyValue : jsstring * jsstring) : Result ParsedConfig :=
  let '(key, value) := keyValue in
  match parser_of combinedParsers key with
  | None => Err (KnownError (js "Invalid config property: " ++ key))
  | Some parser =>
      parsed ← parser (Some value); Ok (<[key := parsed]> config)
  end.

(** [setConfigs] returns its outcome and the file after the call:
    [fs.writeFile] is reached only when the loop ends without a throw. *)
Definition setConfigs (file : option jsstring)
    (keyValues : list (jsstring * jsstring))
  : Result unit * option jsstring :=
  let config : ParsedConfig := VString <$> readConfigFile file in
  match for_of setConfigs_body keyValues config with
  | Err e => (Err e, file)
  | Ok config => (Ok tt, Some (ini_stringify config))
  end.

End ConfigStore.

(** ** openai.ts: the HTTPS round trip *)

Definition nl : jsstring := [10].

(** [http.IncomingMessage], as far as it is read. *)
Record IncomingMessage : Type := {
  statusCode : option N;
  statusMessage : option jsstring;
}.

(** The types of the [openai] package, as far as they are used. *)
Module ChatRequest.
Record t : Type := {
  model : jsstring;
  messages : list (jsstring * jsstring);   (* role, content *)
  temperature : Q;
  top_p : Q;
  frequency_penalty : Q;
  presence_penalty : Q;
  max_tokens : N;
  stream : bool;
  n : JsNumber;
}.
End ChatRequest.

Module ChatResponse.
Record message_t : Type := { content : option jsstring }.
Record choice_t : Type := { message : option message_t }.
Record t : Type := { choices : list choice_t }.
End ChatResponse.

(** The call [https.request(url, options, callback)] with what is written to
    it. *)
Record HttpsRequest : Type := {
  url : jsstring;
  port : N;
  method : jsstring;
  headers : list (jsstring * jsstring);
  request_timeout : JsNumber;
  agent : option jsstring;      (* the proxy the agent tunnels through *)
  postContent : jsstring;
}.

(** What the request emits: the end of the response with the buffered body,
    an [error], or a [timeout]. *)
Inductive HttpsEvent : Type :=
| ResponseEnd (response : IncomingMessage) (data : jsstring)
| RequestError (e : Error)
| RequestTimeout.

(** An asynchronous computation: settled, or waiting for the event of an
    HTTPS request. *)
Inductive Async (A : Type) : Type :=
| Resolved (a : A)
| Rejected (e : Error)
| Https (request : HttpsRequest) (k : HttpsEvent -> Async A).
Arguments Resolved {A} a.
Arguments Rejected {A} e.
Arguments Https {A} request k.

Fixpoint Async_bind {A B : Type} (f : A -> Async B) (p : Async A) : Async B :=
  match p with
  | Resolved a => f a
  | Rejected e => Rejected e
  | Https request k => Https request (fun event => Async_bind f (k event))
  end.

Global Instance Async_ret : MRet Async := fun _ a => Resolved a.
Global Instance Async_mbind : MBind Async := fun _ _ f p => Async_bind f p.

(** [try { p } catch (error) { handler(error) }] *)
Fixpoint try_catch {A : Type} (p : Async A) (handler : Error -> Async A)
  : Async A :=
  match p with
  | Resolved a => Resolved a
  | Rejected e => handler e
  | Https request k => Https request (fun event => try_catch (k event) handler)
  end.

(** Running a computation against a network that answers every request with
    an event: the outcome, and the requests that were issued. *)
Fixpoint run {A : Type} (network : HttpsRequest -> HttpsEvent) (p : Async A)
  : Result A :=
  match p with
  | Resolved a => Ok a
  | Rejected e => Err e
  | Https request k => run network (k (network request))
  end.

Fixpoint requests {A : Type} (network : HttpsRequest -> HttpsEvent)
    (p : Async A) : list HttpsRequest :=
  match p with
  | Resolved _ | Rejected _ => []
  | Https request k => request :: requests network (k (network request))
  end.

(** [Buffer.byteLength(s)]: the length of the UTF-8 encoding; a surrogate
    pair takes four bytes, a lone surrogate the three of U+FFFD. *)
Fixpoint byteLength (s : jsstring) : N :=
  match s with
  | [] => 0
  | c :: rest =>
      if c <? 128 then 1 + byteLength rest
      else if c <? 2048 then 2 + byteLength rest
      else if (55296 <=? c) && (c <=? 56319) then
        match rest with
        | d :: rest' =>
            if (56320 <=? d) && (d <=? 57343) then 4 + byteLength rest'
            else 3 + byteLength rest
        | [] => 3
        end
      else 3 + byteLength rest
  end.

Definition decimal (n : N) : jsstring := js (NilEmpty.string_of_uint (N.to_uint n)).

(** ** openai.ts: cleaning the candidates *)

(** WhiteSpace and LineTerminator of ECMAScript, what [trim] strips. *)
Definition is_whitespace (c : N) : bool :=
  bool_decide (c ∈ [9; 10; 11; 12; 13; 32; 160; 5760; 8232; 8233; 8239; 8287;
                    12288; 65279])
  || ((8192 <=? c) && (c <=? 8202)).

Fixpoint trimStart (s : jsstring) : jsstring :=
  match s with
  | [] => []
  | c :: rest => if is_whitespace c then trimStart rest else s
  end.

Fixpoint trimEnd (s : jsstring) : jsstring :=
  match s with
  | [] => []
  | c :: rest =>
      match trimEnd rest with
      | [] => if is_whitespace c then [] else [c]
      | kept => c :: kept
      end
  end.

Definition trim (s : jsstring) : jsstring := trimEnd (trimStart s).

Definition is_line_break (c : N) : bool := (c =? 10) || (c =? 13).

(** [s.replace(/[\n\r]/g, '')] *)
Definition remove_line_breaks (s : jsstring) : jsstring :=
  filter (fun c => is_line_break c = false) s.

(** [s.replace(/(\w)\.$/, '$1')]: the first position, from the left, where a
    word character is followed by a period that ends the input; the two are
    replaced by the word character. *)
Fixpoint replace_word_period_end (s : jsstring) : jsstring :=
  match s with
  | [] => []
  | c :: rest =>
      if is_word c && bool_decide (rest = [46]) then [c]
      else c :: replace_word_period_end rest
  end.

Definition sanitizeMessage (message : jsstring) : jsstring :=
  replace_word_period_end (remove_line_breaks (trim message)).

(** [new Set(array)]: a [Set] keeps its elements in insertion order, and
    [add] leaves a set that has the element as it is. *)
Definition Set_add (set : list jsstring) (x : jsstring) : list jsstring :=
  if decide (x ∈ set) then set else set ++ [x].

Definition new_Set (array : list jsstring) : list jsstring :=
  fold_left Set_add array [].

(** [Array.from(set)] lists the elements in insertion order. *)
Definition deduplicateMessages (array : list jsstring) : list jsstring :=
  new_Set array.

(** [choice.message?.content], as a condition. *)
Definition has_content (choice : ChatResponse.choice_t) : bool :=
  match ChatResponse.message choice with
  | Some m =>
      match ChatResponse.content m with
      | Some (_ :: _) => true
      | _ => false
      end
  | None => false
  end.

(** [choice.message!.content as string] *)
Definition content_of (choice : ChatResponse.choice_t) : jsstring :=
  default [] (ChatResponse.message choice ≫= ChatResponse.content).

(** ** openai.ts: the completion client *)

(** [config] as [generateCommitMessage] receives it. *)
Record ValidConfig : Type := {
  OPENAI_KEY : jsstring;
  USE_AZURE : bool;
  AZURE_OPENAI_KEY : jsstring;
  AZURE_OPENAI_ENDPOINT : jsstring;
  proxy : option jsstring;
  generate : JsNumber;
  timeout : JsNumber;
  locale : jsstring;
  max_length : JsNumber;
  model : jsstring;
  type : jsstring;
}.

(** A template literal prints a missing property as [undefined]. *)
Definition template (o : option jsstring) : jsstring :=
  default (js "undefined") o.

(** [error.code] *)
Definition code_of (error : Error) : option jsstring :=
  match error with
  | NodeError code _ _ => code
  | _ => None
  end.

Definition hostname_of (error : Error) : option jsstring :=
  match error with
  | NodeError _ hostname _ => hostname
  | _ => None
  end.

Definition syscall_of (error : Error) : option jsstring :=
  match error with
  | NodeError _ _ syscall => syscall
  | _ => None
  end.

Section CompletionClient.

(** [JSON.stringify], [JSON.parse] ([None] for a [SyntaxError]),
    [generatePrompt] of [prompt.ts], and the exponential notation that
    [Number.prototype.toString] uses from [1e21] on. *)
Variable JSON_stringify : ChatRequest.t -> jsstring.
Variable JSON_parse : jsstring -> option ChatResponse.t.
Variable generatePrompt : jsstring -> JsNumber -> jsstring -> jsstring.
Variable exponential_notation : N -> jsstring.

(** A number inside a template literal. *)
Definition Number_toString (x : JsNumber) : jsstring :=
  match x with
  | Finite v => if v <? 10 ^ 21 then decimal v else exponential_notation v
  | Infinity => js "Infinity"
  end.

Definition httpsPost (url : jsstring) (headers : list (jsstring * jsstring))
    (json : ChatRequest.t) (timeout : JsNumber) (proxy : option jsstring)
  : Async (IncomingMessage * jsstring) :=
  let postContent := JSON_stringify json in
  Https
    {| url := url;
       port := 443;
       method := js "POST";
       headers :=
         headers
         ++ [ (js "Content-Type", js "application/json");
              (js "Content-Length",
               Number_toString (Finite (byteLength postContent))) ];
       request_timeout := timeout;
       agent := match proxy with
                | Some ((_ :: _) as proxy) => Some proxy
                | _ => None
                end;
       postContent := postContent |}
    (fun event =>
       match event with
       | ResponseEnd response data => Resolved (response, data)
       | RequestError e => Rejected e
       | RequestTimeout =>
           Rejected
             (KnownError
                (js "Time out error: request took over "
                 ++ Number_toString timeout
                 ++ js "ms. Try increasing the `timeout` config, or checking the OpenAI API status https://status.openai.com"))
       end).

Definition createChatCompletion (useAzure : bool) (url apiKey : jsstring)
    (json : ChatRequest.t) (timeout : JsNumber) (proxy : option jsstring)
  : Async ChatResponse.t :=
  let headers :=
    if useAzure then [ (js "api-key", apiKey) ]
    else [ (js "Authorization", js "Bearer " ++ apiKey) ] in
  '(response, data) ← httpsPost url headers json timeout proxy;
  if match statusCode response with
     | None | Some 0 => true
     | Some status => (status <? 200) || (299 <? status)
     end
  then
    let errorMessage :=
      js "API Error: "
      ++ match statusCode response with
         | Some status => Number_toString (Finite status)
         | None => js "undefined"
         end
      ++ js " - " ++ template (statusMessage response) in
    let errorMessage :=
      match data with
      | [] => errorMessage
      | _ :: _ => errorMessage ++ nl ++ nl ++ data
      end in
    let errorMessage :=
      if bool_decide (statusCode response = Some 500)
      then errorMessage ++ nl ++ nl
           ++ js "Check the API status: https://status.openai.com"
      else errorMessage in
    Rejected (KnownError errorMessage)
  else
    match JSON_parse data with
    | Some completion => Resolved completion
    | None => Rejected SyntaxError
    end.

Definition generateCommitMessage (config : ValidConfig) (diff : jsstring)
  : Async (list jsstring) :=
  let apiKey := OPENAI_KEY config in
  let useAzure := USE_AZURE config in
  let azureKey := AZURE_OPENAI_KEY config in
  try_catch
    (let url :=
       if useAzure then AZURE_OPENAI_ENDPOINT config
       else js "https://api.openai.com/v1/chat/completions" in
     completion ←
       createChatCompletion useAzure url
         (if useAzure then azureKey else apiKey)
         {| ChatRequest.model := model config;
            ChatRequest.messages :=
              [ (js "system",
                 generatePrompt (locale config) (max_length config)
                   (type config));
                (js "user", diff) ];
            ChatRequest.temperature := 7 # 10;
            ChatRequest.top_p := 1;
            ChatRequest.frequency_penalty := 0;
            ChatRequest.presence_penalty := 0;
            ChatRequest.max_tokens := 200;
            ChatRequest.stream := false;
            ChatRequest.n := generate config |}
         (timeout config) (proxy config);
     Resolved
       (deduplicateMessages
          (map (fun choice => sanitizeMessage (content_of choice))
             (filter (fun choice => has_content choice = true)
                (ChatResponse.choices completion)))))
    (fun error =>
       if bool_decide (code_of error = Some (js "ENOTFOUND")) then
         Rejected
           (KnownError
              (js "Error connecting to " ++ template (hostname_of error)
               ++ js " (" ++ template (syscall_of error)
               ++ js "). Are you connected to the internet?"))
       else Rejected error).

End CompletionClient.

(** ** The words of the specification, for comparison with the code *)

(** Every recognized key resolves: its parser accepts the value that the
    override map and the persisted file give it, and [parsed] holds exactly
    the accepted values. *)
Definition resolves (cliConfig : option RawConfig) (config : RawConfig)
    (parsed : ParsedConfig) : Prop :=
  forall key,
    match parser_of combinedParsers key with
    | Some parser =>
        exists v, parser (raw_value cliConfig config key) = Ok v
                  /\ parsed !! key = Some v
    | None => parsed !! key = None
    end.

Definition non_empty (o : option JsValue) : Prop :=
  exists s, o = Some (VString s) /\ s <> [].

(** The cross-field credential invariant: in direct mode the direct API key
    is non-empty; in gateway mode the gateway key and the gateway endpoint
    are both non-empty. *)
Definition credential_invariant (parsed : ParsedConfig) : Prop :=
  (parsed !! js "USE_AZURE" = Some (VBool false)
   /\ non_empty (parsed !! js "OPENAI_KEY"))
  \/ (parsed !! js "USE_AZURE" = Some (VBool true)
      /\ non_empty (parsed !! js "AZURE_OPENAI_KEY")
      /\ non_empty (parsed !! js "AZURE_OPENAI_ENDPOINT")).

(** The three instructional errors of the credential checks. *)
Definition instructional (e : Error) : Prop :=
  e = missing_openai_key \/ e = missing_azure_key \/ e = missing_azure_endpoint.

(** The documented default of every recognized key. *)
Definition documented_defaults : list (jsstring * JsValue) :=
  [ (js "OPENAI_KEY", VString []);
    (js "locale", VString (js "en"));
    (js "generate", VNumber (Finite 1));
    (js "type", VString []);
    (js "proxy", VUndefined);
    (js "model", VString (js "gpt-3.5-turbo"));
    (js "timeout", VNumber (Finite 10000));
    (js "max-length", VNumber (Finite 50));
    (js "USE_AZURE", VBool false);
    (js "AZURE_OPENAI_KEY", VString []);
    (js "AZURE_OPENAI_ENDPOINT", VString []) ].

Definition defaultConfig : ParsedConfig := list_to_map documented_defaults.

(** A pair that [setConfigs] rejects: its key is not recognized, or its
    value fails the parser of its key. *)
Definition invalid_pair (keyValue : jsstring * jsstring) : Prop :=
  match parser_of combinedParsers keyValue.1 with
  | None => True
  | Some parser => exists e, parser (Some keyValue.2) = Err e
  end.

(** A single trailing period removed if present: the sanitizing as the
    specification words it. *)
Definition strip_trailing_period (s : jsstring) : jsstring :=
  match reverse s with
  | c :: rest => if c =? 46 then reverse rest else s
  | [] => s
  end.

Definition sanitize_as_stated (message : jsstring) : jsstring :=
  strip_trailing_period (remove_line_breaks (trim message)).

(** A trailing period removed if a word character comes right before it. *)
Definition strip_period_after_word (s : jsstring) : jsstring :=
  match reverse s with
  | c :: w :: rest => if (c =? 46) && is_word w then reverse (w :: rest) else s
  | _ => s
  end.

(** Every distinct element once, where it first occurs. *)
Fixpoint first_occurrences (l : list jsstring) : list jsstring :=
  match l with
  | [] => []
  | x :: rest => x :: filter (fun y => y <> x) (first_occurrences rest)
  end.

(** The sanitized texts of the choices that have content. *)
Definition candidate_texts (choices : list ChatResponse.choice_t)
  : list jsstring :=
  map (fun choice => sanitizeMessage (content_of choice))
    (filter (fun choice => has_content choice = true) choices).

(** ** Sample inputs for the concrete runs *)

(** A persisted file reduced to what [ini.parse] reads from it, for the runs
    below. *)
Definition sample_parse (raw : RawConfig) : jsstring -> RawConfig :=
  fun _ => raw.

Definition sample_stringify : ParsedConfig -> jsstring :=
  fun config => js "<" ++ concat ((map_to_list config).*1) ++ js ">".

Definition sample_choice (text : jsstring) : ChatResponse.choice_t :=
  {| ChatResponse.message := Some {| ChatResponse.content := Some text |} |}.

Definition sample_completion : ChatResponse.t :=
  {| ChatResponse.choices :=
       [ sample_choice (js "Fix bug.");
         {| ChatResponse.message := None |};
         sample_choice (js "Add tests");
         sample_choice (js " Fix bug");
         sample_choice [] ] |}.

Definition sample_config : ValidConfig :=
  {| OPENAI_KEY := js "sk-abc"; USE_AZURE := false;
     AZURE_OPENAI_KEY := []; AZURE_OPENAI_ENDPOINT := [];
     proxy := None; generate := Finite 3; timeout := Finite 10000;
     locale := js "en"; max_length := Finite 50;
     model := js "gpt-3.5-turbo"; type := [] |}.

Definition sample_network (status : N) (text data : jsstring)
  : HttpsRequest -> HttpsEvent :=
  fun _ =>
    ResponseEnd {| statusCode := Some status; statusMessage := Some text |} data.


(** ** Further notions, to state what the code guarantees *)






(** The keys whose parser returns a string. *)
Definition string_keys : list jsstring :=
  [ js "OPENAI_KEY"; js "locale"; js "type"; js "proxy"; js "model";
    js "AZURE_OPENAI_KEY"; js "AZURE_OPENAI_ENDPOINT" ].

(** An ASCII letter or a dash. *)
Definition letter_or_dash (c : N) : Prop :=
  65 <= c <= 90 \/ 97 <= c <= 122 \/ c = 45.

(** The value that the last pair of a batch gives to a key, if any. *)
Fixpoint last_value (key : jsstring) (keyValues : list (jsstring * jsstring))
  : option jsstring :=
  match keyValues with
  | [] => None
  | (k, value) :: rest =>
      match last_value key rest with
      | Some later => Some later
      | None => if decide (k = key) then Some value else None
      end
  end.



(** ** Facts about the parsers *)

Lemma parseAssert_inv name condition message (r : unit) :
  parseAssert name condition message = Ok r -> condition = true.
Proof. unfold parseAssert. by destruct condition. Qed.

Lemma parseAssert_Err name condition message e :
  parseAssert name condition message = Err e ->
  condition = false /\
  e = KnownError (js "Invalid config property " ++ name ++ js ": " ++ message).
Proof. unfold parseAssert. destruct condition; [done|]. by intros [= <-]. Qed.

(** Splitting a sequence of assertions into its outcomes. *)
Ltac split_asserts :=
  repeat match goal with
    | H : context [parseAssert ?n ?c ?m] |- _ =>
        let E := fresh "E" in
        destruct (parseAssert n c m) as [[]|] eqn:E;
        [apply parseAssert_inv in E | apply parseAssert_Err in E as [? ->]];
        cbn [mbind Result_bind] in H
    | |- context [parseAssert ?n ?c ?m] =>
        let E := fresh "E" in
        destruct (parseAssert n c m) as [[]|] eqn:E;
        [apply parseAssert_inv in E | apply parseAssert_Err in E as [? ->]];
        cbn [mbind Result_bind]
    end.

Ltac elem_of_parsers H :=
  unfold combinedParsers in H;
  repeat (apply elem_of_cons in H as [H|H]; [injection H as -> ->|]);
  [..|by apply elem_of_nil in H].

(** A parser fails only with a validation error that names its key. *)
Lemma parser_error_names_key key (parser : Parser) value e :
  (key, parser) ∈ combinedParsers ->
  parser value = Err e ->
  exists rule,
    e = KnownError (js "Invalid config property " ++ key ++ js ": " ++ rule).
Proof.
  intros Hin Herr. elem_of_parsers Hin.
  all: destruct value as [[|c value]|]; try discriminate Herr.
  all: cbv beta delta
         [azureConfigParsers.USE_AZURE azureConfigParsers.AZURE_OPENAI_KEY
          azureConfigParsers.AZURE_OPENAI_ENDPOINT configParsers.OPENAI_KEY
          configParsers.locale configParsers.generate configParsers.type
          configParsers.proxy configParsers.model configParsers.timeout
          configParsers.max_length] iota zeta in Herr.
  all: split_asserts; try discriminate Herr.
  all: injection Herr as <-; eexists; reflexivity.
Qed.

Lemma parser_typed_USE_AZURE value v :
  azureConfigParsers.USE_AZURE value = Ok v -> exists b, v = VBool b.
Proof.
  destruct value as [s|]; cbn; [|intros [= <-]; eauto].
  intros H. split_asserts; [|done]. injection H as <-. eauto.
Qed.

Lemma parser_typed_OPENAI_KEY value v :
  configParsers.OPENAI_KEY value = Ok v -> exists s, v = VString s.
Proof.
  destruct value as [[|c s]|]; cbn; try (intros [= <-]; eauto).
  intros H. split_asserts; [|done]. injection H as <-. eauto.
Qed.

Lemma parser_typed_AZURE_OPENAI_KEY value v :
  azureConfigParsers.AZURE_OPENAI_KEY value = Ok v -> exists s, v = VString s.
Proof.
  destruct value as [[|c s]|]; cbn; try (intros [= <-]; eauto).
Qed.

Lemma parser_typed_AZURE_OPENAI_ENDPOINT value v :
  azureConfigParsers.AZURE_OPENAI_ENDPOINT value = Ok v ->
  exists s, v = VString s.
Proof.
  destruct value as [[|c s]|]; cbn; try (intros [= <-]; eauto).
  intros H. split_asserts; [|done]. injection H as <-. eauto.
Qed.

(** ** Facts about the loop of [getConfig] *)


Lemma parser_of_not_key parsers key :
  key ∉ parsers.*1 -> parser_of parsers key = None.
Proof.
  induction parsers as [|[k p] rest IH]; [done|]. cbn.
  intros Hnot. apply not_elem_of_cons in Hnot as [Hne Hnot].
  destruct (decide (k = key)); [congruence|]. by apply IH.
Qed.

Lemma elem_of_parser_of parsers key parser :
  NoDup parsers.*1 -> (key, parser) ∈ parsers ->
  parser_of parsers key = Some parser.
Proof.
  induction parsers as [|[k p] rest IH]; [by intros _ ?%elem_of_nil|].
  cbn. intros [Hnot Hnd]%NoDup_cons [[= -> ->]|Hin]%elem_of_cons.
  - by destruct (decide (k = k)).
  - destruct (decide (k = key)) as [->|]; [|by apply IH].
    exfalso. apply Hnot. apply list_elem_of_fmap. by exists (key, parser).
Qed.

Lemma combinedParsers_NoDup : NoDup combinedParsers.*1.
Proof. apply (bool_decide_unpack (NoDup combinedParsers.*1)). by vm_compute. Qed.

(** With suppression the loop always ends normally, and a key holds its
    parsed value when its parser succeeded and is left as it was otherwise. *)
Lemma getConfig_loop_suppressed (cli : option RawConfig) (config : RawConfig)
    (parsers : list (jsstring * Parser)) (parsedConfig : ParsedConfig) :
  NoDup parsers.*1 ->
  exists result : ParsedConfig,
    for_of (getConfig_body cli true config) parsers parsedConfig = Ok result
    /\ forall key,
        result !! key =
          match parser_of parsers key with
          | Some parser =>
              match parser (raw_value cli config key) with
              | Ok v => Some v
              | Err _ => parsedConfig !! key
              end
          | None => parsedConfig !! key
          end.
Proof.
  revert parsedConfig.
  induction parsers as [|[k p] rest IH]; intros parsedConfig Hnd.
  { exists parsedConfig. by split. }
  apply NoDup_cons in Hnd as [Hnot Hnd]. cbn [for_of getConfig_body].
  set (next := match p (raw_value cli config k) with
               | Ok v => <[k:=v]> parsedConfig
               | Err _ => parsedConfig
               end).
  destruct (IH next Hnd) as (result & Hrun & Hlook).
  exists result. split.
  { subst next. destruct (p (raw_value cli config k)); exact Hrun. }
  intros key. rewrite Hlook. cbn [parser_of].
  destruct (decide (k = key)) as [->|Hne].
  - rewrite (parser_of_not_key rest key Hnot). subst next.
    destruct (p (raw_value cli config key)); [apply lookup_insert_eq|done].
  - assert (next !! key = parsedConfig !! key) as ->; [|done].
    subst next. destruct (p (raw_value cli config k)); [|done].
    by apply lookup_insert_ne.
Qed.

(** Without suppression the loop ends normally exactly when every parser
    succeeds, and otherwise throws what a parser threw. *)
Lemma getConfig_loop_strict (cli : option RawConfig) (config : RawConfig)
    (parsers : list (jsstring * Parser)) (parsedConfig : ParsedConfig) :
  NoDup parsers.*1 ->
  match for_of (getConfig_body cli false config) parsers parsedConfig with
  | Ok result =>
      forall key,
        match parser_of parsers key with
        | Some parser =>
            exists v, parser (raw_value cli config key) = Ok v
                      /\ result !! key = Some v
        | None => result !! key = parsedConfig !! key
        end
  | Err e =>
      exists key parser,
        (key, parser) ∈ parsers /\ parser (raw_value cli config key) = Err e
  end.
Proof.
  revert parsedConfig.
  induction parsers as [|[k p] rest IH]; intros parsedConfig Hnd; [done|].
  apply NoDup_cons in Hnd as [Hnot Hnd]. cbn [for_of getConfig_body].
  destruct (p (raw_value cli config k)) as [v|e] eqn:Hp; cbn [mbind Result_bind].
  2:{ exists k, p. split; [apply elem_of_cons; by left|done]. }
  specialize (IH (<[k:=v]> parsedConfig) Hnd).
  destruct (for_of _ rest _) as [result|e].
  - intros key. specialize (IH key). cbn [parser_of].
    destruct (decide (k = key)) as [->|Hne].
    + rewrite (parser_of_not_key rest key Hnot) in IH.
      exists v. split; [done|]. by rewrite IH, lookup_insert_eq.
    + destruct (parser_of rest key); [done|]. by rewrite IH, lookup_insert_ne.
  - destruct IH as (key & parser & Hin & Herr).
    exists key, parser. split; [apply elem_of_cons; by right|done].
Qed.

(** ** [getConfig] without suppression *)

Lemma resolves_typed (cli : option RawConfig) (config : RawConfig)
    (parsed : ParsedConfig) :
  resolves cli config parsed ->
  exists b k ak ep,
    parsed !! js "USE_AZURE" = Some (VBool b)
    /\ parsed !! js "OPENAI_KEY" = Some (VString k)
    /\ parsed !! js "AZURE_OPENAI_KEY" = Some (VString ak)
    /\ parsed !! js "AZURE_OPENAI_ENDPOINT" = Some (VString ep).
Proof.
  intros Hres.
  destruct (Hres (js "USE_AZURE")) as (v1 & [b ->]%parser_typed_USE_AZURE & H1).
  destruct (Hres (js "OPENAI_KEY")) as (v2 & [k ->]%parser_typed_OPENAI_KEY & H2).
  destruct (Hres (js "AZURE_OPENAI_KEY"))
    as (v3 & [ak ->]%parser_typed_AZURE_OPENAI_KEY & H3).
  destruct (Hres (js "AZURE_OPENAI_ENDPOINT"))
    as (v4 & [ep ->]%parser_typed_AZURE_OPENAI_ENDPOINT & H4).
  by exists b, k, ak, ep.
Qed.

Lemma resolves_unique (cli : option RawConfig) (config : RawConfig)
    (p1 p2 : ParsedConfig) :
  resolves cli config p1 -> resolves cli config p2 -> p1 = p2.
Proof.
  intros H1 H2. apply map_eq. intros key.
  specialize (H1 key). specialize (H2 key).
  destruct (parser_of combinedParsers key).
  - destruct H1 as (v1 & E1 & ->), H2 as (v2 & E2 & ->). congruence.
  - congruence.
Qed.

(** The loop of [getConfig], run strictly on the recognized keys. *)
Lemma getConfig_loop_resolves (cli : option RawConfig) (config : RawConfig) :
  match for_of (getConfig_body cli false config) combinedParsers ∅ with
  | Ok result => resolves cli config result
  | Err e =>
      (exists rule key,
          e = KnownError
                (js "Invalid config property " ++ key ++ js ": " ++ rule))
      /\ forall parsed, ~ resolves cli config parsed
  end.
Proof.
  pose proof (getConfig_loop_strict cli config combinedParsers ∅
                combinedParsers_NoDup) as H.
  destruct (for_of _ _ _) as [result|e].
  - intros key. specialize (H key).
    destruct (parser_of combinedParsers key); [done|].
    by rewrite H, lookup_empty.
  - destruct H as (key & parser & Hin & Herr). split.
    + destruct (parser_error_names_key _ _ _ _ Hin Herr) as [rule ->].
      by exists rule, key.
    + intros parsed Hres. specialize (Hres key).
      rewrite (elem_of_parser_of _ _ _ combinedParsers_NoDup Hin) in Hres.
      destruct Hres as (v & Hv & _). congruence.
Qed.

Section ConfigStoreFacts.

Variable ini_parse : jsstring -> RawConfig.
Variable ini_stringify : ParsedConfig -> jsstring.

(** What [getConfig] answers once every key resolved. *)
Lemma getConfig_strict_outcome (file : option jsstring)
    (cli : option RawConfig) (parsed : ParsedConfig) b k ak ep :
  resolves cli (readConfigFile ini_parse file) parsed ->
  parsed !! js "USE_AZURE" = Some (VBool b) ->
  parsed !! js "OPENAI_KEY" = Some (VString k) ->
  parsed !! js "AZURE_OPENAI_KEY" = Some (VString ak) ->
  parsed !! js "AZURE_OPENAI_ENDPOINT" = Some (VString ep) ->
  getConfig ini_parse file cli (Some false) =
    if b then
      match ak, ep with
      | [], _ => Err missing_azure_key
      | _ :: _, [] => Err missing_azure_endpoint
      | _ :: _, _ :: _ => Ok parsed
      end
    else
      match k with
      | [] => Err missing_openai_key
      | _ :: _ => Ok parsed
      end.
Proof.
  intros Hres Hb Hk Hak Hep. unfold getConfig. cbn zeta.
  pose proof (getConfig_loop_resolves cli (readConfigFile ini_parse file)) as H.
  cbn [default].
  destruct (for_of _ _ _) as [result|e].
  2:{ destruct H as [_ H]. by destruct (H parsed). }
  rewrite (resolves_unique _ _ _ _ H Hres). cbn [mbind Result_bind].
  unfold property. rewrite Hb, Hk, Hak, Hep. cbn [default truthy].
  destruct b, k, ak, ep; reflexivity.
Qed.

(** C1. Without suppression, [getConfig] fails with one of the instructional
    errors exactly when every per-key parser succeeded and the resolved
    values break the cross-field credential invariant (direct mode with an
    empty direct key; gateway mode with an empty gateway key or endpoint);
    when they keep it, the resolved mapping is returned. *)
Theorem getConfig_credential_invariant (file : option jsstring)
    (cli : option RawConfig) :
  let config := readConfigFile ini_parse file in
  let outcome := getConfig ini_parse file cli (Some false) in
  (forall parsed, resolves cli config parsed ->
     (credential_invariant parsed -> outcome = Ok parsed)
     /\ (~ credential_invariant parsed ->
         exists e, outcome = Err e /\ instructional e)
     /\ (parsed !! js "USE_AZURE" = Some (VBool false) ->
         parsed !! js "OPENAI_KEY" = Some (VString []) ->
         outcome = Err missing_openai_key)
     /\ (parsed !! js "USE_AZURE" = Some (VBool true) ->
         parsed !! js "AZURE_OPENAI_KEY" = Some (VString [])
         \/ parsed !! js "AZURE_OPENAI_ENDPOINT" = Some (VString []) ->
         outcome = Err missing_azure_key
         \/ outcome = Err missing_azure_endpoint))
  /\ ((exists e, outcome = Err e /\ instructional e) ->
      exists parsed, resolves cli config parsed /\ ~ credential_invariant parsed).
Proof.
  intros config outcome. split.
  - intros parsed Hres.
    destruct (resolves_typed _ _ _ Hres) as (b & k & ak & ep & Hb & Hk & Hak & Hep).
    pose proof (getConfig_strict_outcome file cli parsed b k ak ep
                  Hres Hb Hk Hak Hep) as Hout.
    fold outcome in Hout. unfold credential_invariant, non_empty.
    rewrite Hb, Hk, Hak, Hep. repeat split.
    + intros [(? & s & ? & ?)|(? & (s1 & ? & ?) & (s2 & ? & ?))];
        simplify_eq; rewrite Hout.
      * by destruct s.
      * by destruct s1, s2.
    + intros Hnot. rewrite Hout. unfold instructional.
      destruct b, k, ak, ep; eauto 6.
      all: exfalso; apply Hnot; eauto 10.
    + intros [= ->] [= ->]. by rewrite Hout.
    + intros [= ->] [[= ->]|[= ->]]; rewrite Hout; [by left|].
      destruct ak; eauto.
  - intros (e & Hout & Hins). subst outcome. unfold getConfig in Hout.
    cbn zeta in Hout. cbn [default] in Hout.
    pose proof (getConfig_loop_resolves cli config) as H. fold config in Hout.
    destruct (for_of _ _ _) as [result|e'] eqn:Hloop.
    2:{ destruct H as [(rule & key & ->) _]. cbn in Hout.
        injection Hout as <-.
        destruct Hins as [Hi|[Hi|Hi]]; discriminate Hi. }
    exists result. split; [done|].
    destruct (resolves_typed _ _ _ H) as (b & k & ak & ep & Hb & Hk & Hak & Hep).
    pose proof (getConfig_strict_outcome file cli result b k ak ep
                  H Hb Hk Hak Hep) as Hout'.
    unfold getConfig in Hout'. cbn zeta in Hout'. cbn [default] in Hout'.
    fold config in Hout'. rewrite Hloop in Hout'. rewrite Hout in Hout'.
    unfold credential_invariant, non_empty. rewrite Hb, Hk, Hak, Hep.
    intros [(? & s & ? & ?)|(? & (s1 & ? & ?) & (s2 & ? & ?))]; simplify_eq.
    + by destruct s.
    + by destruct s1, s2.
Qed.

(** C2 (amended). With no persisted file and no overrides, [getConfig]
    without suppression fails with the instructional error that asks for
    the direct API key; with suppression it returns every recognized key
    mapped to its documented default. *)
Theorem getConfig_no_file_no_overrides :
  getConfig ini_parse None None None = Err missing_openai_key
  /\ getConfig ini_parse None None (Some false) = Err missing_openai_key
  /\ getConfig ini_parse None None (Some true) = Ok defaultConfig.
Proof. repeat split; vm_compute; reflexivity. Qed.

(** [getConfig] with suppression, key by key. *)
Lemma getConfig_suppressed_keys (file : option jsstring)
    (cli : option RawConfig) :
  exists parsed : ParsedConfig,
    getConfig ini_parse file cli (Some true) = Ok parsed
    /\ forall key,
        parsed !! key =
          match parser_of combinedParsers key with
          | Some parser =>
              match parser (raw_value cli (readConfigFile ini_parse file) key) with
              | Ok v => Some v
              | Err _ => None
              end
          | None => None
          end.
Proof.
  destruct (getConfig_loop_suppressed cli (readConfigFile ini_parse file)
              combinedParsers ∅ combinedParsers_NoDup)
    as (parsed & Hrun & Hlook).
  exists parsed. split.
  - unfold getConfig. cbn zeta.
    change (default false (Some true)) with true. rewrite Hrun.
    cbn [mbind Result_bind negb].
    destruct (_ && _); cbn [mbind Result_bind];
      by destruct (truthy _).
  - intros key. rewrite Hlook.
    destruct (parser_of combinedParsers key) as [parser|]; [|done].
    by destruct (parser _).
Qed.

(** C9. With suppression, [getConfig] returns for every persisted file and
    every override map; a recognized key holds its parsed value when its
    parser accepted the resolved raw value and is absent from the result
    (not defaulted) when the parser failed; the credential checks throw
    nothing. *)
Theorem getConfig_suppressed_returns (file : option jsstring)
    (cli : option RawConfig) :
  exists parsed : ParsedConfig,
    getConfig ini_parse file cli (Some true) = Ok parsed
    /\ forall key,
        parsed !! key =
          match parser_of combinedParsers key with
          | Some parser =>
              match parser (raw_value cli (readConfigFile ini_parse file) key) with
              | Ok v => Some v
              | Err _ => None
              end
          | None => None
          end.
Proof. apply getConfig_suppressed_keys. Qed.

(** Without suppression the first failing parser ends [getConfig]: an
    override that the first key rejects is thrown as it is. *)
Lemma getConfig_USE_AZURE_rejected (file : option jsstring)
    (cli : option RawConfig) e :
  azureConfigParsers.USE_AZURE
    (raw_value cli (readConfigFile ini_parse file) (js "USE_AZURE")) = Err e ->
  getConfig ini_parse file cli (Some false) = Err e.
Proof.
  intros H. unfold getConfig. cbn zeta. unfold combinedParsers.
  cbn [for_of getConfig_body default]. by rewrite H.
Qed.

(** C10 (amended). An override that is present takes precedence over the
    persisted value even when it is the empty string, and the persisted
    value is used only when the override is absent. For every key but the
    gateway-mode flag the parser then sees an empty input and yields the
    documented default of the key; the parser of the gateway-mode flag
    rejects the empty string, so that without suppression [getConfig] fails
    with the validation error of that key and with suppression the key is
    left out. *)
Theorem getConfig_empty_override (file : option jsstring) (cli : RawConfig)
    (key : jsstring) (parser : Parser) :
  (key, parser) ∈ combinedParsers ->
  let config := readConfigFile ini_parse file in
  (cli !! key = None -> raw_value (Some cli) config key = config !! key)
  /\ (cli !! key = Some [] ->
      raw_value (Some cli) config key = Some []
      /\ (key <> js "USE_AZURE" ->
          exists d, (key, d) ∈ documented_defaults
            /\ parser (Some []) = Ok d
            /\ (exists parsed : ParsedConfig,
                  getConfig ini_parse file (Some cli) (Some true) = Ok parsed
                  /\ parsed !! key = Some d)
            /\ (forall parsed : ParsedConfig,
                  getConfig ini_parse file (Some cli) (Some false) = Ok parsed ->
                  parsed !! key = Some d))
      /\ (key = js "USE_AZURE" ->
          let e := KnownError
                     (js "Invalid config property USE_AZURE: Must be true or false") in
          parser (Some []) = Err e
          /\ getConfig ini_parse file (Some cli) (Some false) = Err e
          /\ (exists parsed : ParsedConfig,
                getConfig ini_parse file (Some cli) (Some true) = Ok parsed
                /\ parsed !! key = None))).
Proof.
  intros Hin config. split.
  { intros Hnone. unfold raw_value. cbn. by rewrite Hnone. }
  intros Hempty.
  assert (raw_value (Some cli) config key = Some []) as Hraw.
  { unfold raw_value. cbn. by rewrite Hempty. }
  split; [done|].
  pose proof (elem_of_parser_of _ _ _ combinedParsers_NoDup Hin) as Hof.
  destruct (getConfig_suppressed_keys file (Some cli))
    as (parsedS & HrunS & HlookS).
  specialize (HlookS key). rewrite Hof in HlookS. fold config in HlookS.
  rewrite Hraw in HlookS.
  split.
  - intros Hne.
    assert (exists d, (key, d) ∈ documented_defaults /\ parser (Some []) = Ok d)
      as (d & Hd & Hp).
    { clear -Hin Hne. elem_of_parsers Hin; try done.
      all: eexists; split; [|reflexivity].
      all: apply (bool_decide_unpack _); by vm_compute. }
    exists d. split; [done|]. split; [done|]. split.
    + exists parsedS. split; [done|]. by rewrite HlookS, Hp.
    + intros parsed Hrun.
      pose proof (getConfig_loop_resolves (Some cli) config) as Hres.
      unfold getConfig in Hrun. cbn zeta in Hrun. fold config in Hrun.
      cbn [default] in Hrun.
      destruct (for_of _ _ _) as [result|e']; [|done].
      cbn [mbind Result_bind] in Hrun.
      assert (parsed = result) as ->.
      { destruct (_ && _) in Hrun; [done|]. cbn [mbind Result_bind] in Hrun.
        destruct (truthy _) in Hrun; [|by injection Hrun].
        cbn [negb] in Hrun.
        repeat (destruct (bool_decide _) in Hrun; [done|]).
        by injection Hrun. }
      specialize (Hres key). rewrite Hof, Hraw, Hp in Hres.
      destruct Hres as (v & [= <-] & ?). done.
  - intros ->. cbn zeta.
    assert (parser = azureConfigParsers.USE_AZURE) as ->.
    { pose proof Hof as Hof'. by injection Hof' as <-. }
    split; [reflexivity|]. split.
    + apply getConfig_USE_AZURE_rejected. fold config. by rewrite Hraw.
    + exists parsedS. split; [done|]. by rewrite HlookS.
Qed.

End ConfigStoreFacts.

(** ** [setConfigs] *)

Lemma setConfigs_loop_invalid (keyValues : list (jsstring * jsstring))
    (config : ParsedConfig) :
  Exists invalid_pair keyValues ->
  exists e, for_of setConfigs_body keyValues config = Err e.
Proof.
  revert config.
  induction keyValues as [|[key value] rest IH]; intros config Hex.
  { by apply Exists_nil in Hex. }
  cbn [for_of setConfigs_body].
  destruct (parser_of combinedParsers key) as [parser|] eqn:Hof;
    [|by eexists].
  destruct (parser (Some value)) as [parsed|e] eqn:Hp; [|by eexists].
  cbn [mbind Result_bind]. apply IH.
  apply Exists_cons in Hex as [Hhead|Htail]; [|done].
  unfold invalid_pair in Hhead. cbn [fst snd] in Hhead.
  rewrite Hof in Hhead. destruct Hhead as [e He]. congruence.
Qed.

Lemma setConfigs_loop_valid (keyValues : list (jsstring * jsstring))
    (config : ParsedConfig) :
  Forall (fun keyValue => ~ invalid_pair keyValue) keyValues ->
  exists result, for_of setConfigs_body keyValues config = Ok result.
Proof.
  revert config.
  induction keyValues as [|[key value] rest IH]; intros config Hall.
  { by eexists. }
  apply Forall_cons in Hall as [Hhead Htail].
  cbn [for_of setConfigs_body].
  unfold invalid_pair in Hhead. cbn [fst snd] in Hhead.
  destruct (parser_of combinedParsers key) as [parser|]; [|done].
  destruct (parser (Some value)) as [parsed|e]; [|by destruct Hhead; eexists].
  cbn [mbind Result_bind]. by apply IH.
Qed.

Section SetConfigsFacts.

Variable ini_parse : jsstring -> RawConfig.
Variable ini_stringify : ParsedConfig -> jsstring.

(** C3. When a pair of the batch names an unrecognized key or carries a
    value that the parser of its key rejects, [setConfigs] fails and the
    persisted file is what it was before the call: nothing of the batch is
    written. *)
Theorem setConfigs_all_or_nothing (file : option jsstring)
    (keyValues : list (jsstring * jsstring)) :
  Exists invalid_pair keyValues ->
  exists e,
    setConfigs ini_parse ini_stringify file keyValues = (Err e, file).
Proof.
  intros Hex. unfold setConfigs. cbn zeta.
  destruct (setConfigs_loop_invalid keyValues
              (VString <$> readConfigFile ini_parse file) Hex) as [e ->].
  by exists e.
Qed.

(** The file is rewritten when every pair of the batch is valid. *)
Lemma setConfigs_writes (file : option jsstring)
    (keyValues : list (jsstring * jsstring)) :
  Forall (fun keyValue => ~ invalid_pair keyValue) keyValues ->
  exists config,
    setConfigs ini_parse ini_stringify file keyValues
    = (Ok tt, Some (ini_stringify config)).
Proof.
  intros Hall. unfold setConfigs. cbn zeta.
  destruct (setConfigs_loop_valid keyValues
              (VString <$> readConfigFile ini_parse file) Hall) as [c ->].
  by exists c.
Qed.

End SetConfigsFacts.

(** ** Concrete runs of the configuration store *)

Example setConfigs_invalid_OPENAI_KEY :
  setConfigs (sample_parse ∅) sample_stringify (Some (js "timeout=20000"))
    [ (js "OPENAI_KEY", js "abc") ]
  = (Err (KnownError (js "Invalid config property OPENAI_KEY: Must start with "
                        ++ dquote ++ js "sk-" ++ dquote)),
     Some (js "timeout=20000")).
Proof. vm_compute. reflexivity. Qed.

Example setConfigs_unknown_key :
  setConfigs (sample_parse ∅) sample_stringify None [ (js "UNKNOWN", js "1") ]
  = (Err (KnownError (js "Invalid config property: UNKNOWN")), None).
Proof. vm_compute. reflexivity. Qed.

Lemma setConfigs_all_or_nothing_witness :
  exists e,
    setConfigs (sample_parse ∅) sample_stringify (Some (js "locale=en"))
      [ (js "timeout", js "20000"); (js "max-length", js "10") ]
    = (Err e, Some (js "locale=en")).
Proof.
  apply (setConfigs_all_or_nothing (sample_parse ∅) sample_stringify).
  apply Exists_cons. right. apply Exists_cons. left.
  unfold invalid_pair. cbn [fst snd].
  exists (KnownError
            (js "Invalid config property max-length: Must be greater than 20 characters")).
  vm_compute. reflexivity.
Defined.

(** C2, as stated, fails: the call without suppression does not return. *)
Lemma getConfig_no_file_counterexample :
  getConfig (sample_parse ∅) None None None = Err missing_openai_key
  /\ getConfig (sample_parse ∅) None None None <> Ok defaultConfig.
Proof. split; [vm_compute; reflexivity|discriminate]. Qed.

(** C10, as stated, fails for the gateway-mode flag: the empty override wins
    over the persisted [true], and the parser rejects it instead of yielding
    the default [false]. *)
Lemma getConfig_empty_override_counterexample :
  let file := Some (js "USE_AZURE=true") in
  let persisted : RawConfig :=
    {[ js "USE_AZURE" := js "true"; js "AZURE_OPENAI_KEY" := js "k";
       js "AZURE_OPENAI_ENDPOINT" := js "https://gateway.example" ]} in
  let cli : RawConfig := {[ js "USE_AZURE" := [] ]} in
  raw_value (Some cli) persisted (js "USE_AZURE") = Some []
  /\ azureConfigParsers.USE_AZURE (Some []) <> Ok (VBool false)
  /\ getConfig (sample_parse persisted) file (Some cli) (Some false)
     = Err (KnownError
              (js "Invalid config property USE_AZURE: Must be true or false"))
  /\ (exists parsed : ParsedConfig,
        getConfig (sample_parse persisted) file (Some cli) (Some true) = Ok parsed
        /\ parsed !! js "USE_AZURE" = None).
Proof.
  cbn zeta. split; [by vm_compute|]. split; [by vm_compute|].
  split; [by vm_compute|]. eexists. split; [vm_compute; reflexivity|].
  by vm_compute.
Qed.

Lemma getConfig_empty_override_witness :
  let persisted : RawConfig := {[ js "locale" := js "fr" ]} in
  let cli : RawConfig := {[ js "locale" := [] ]} in
  exists parsed : ParsedConfig,
    getConfig (sample_parse persisted) (Some (js "locale=fr")) (Some cli)
      (Some true) = Ok parsed
    /\ parsed !! js "locale" = Some (VString (js "en")).
Proof.
  cbn zeta.
  assert ((js "locale", configParsers.locale) ∈ combinedParsers) as Hin.
  { unfold combinedParsers. do 4 (apply elem_of_cons; right).
    apply elem_of_cons; by left. }
  destruct (getConfig_empty_override
              (sample_parse {[ js "locale" := js "fr" ]})
              (Some (js "locale=fr")) {[ js "locale" := [] ]}
              (js "locale") configParsers.locale Hin) as [_ H].
  destruct H as (_ & H & _); [by vm_compute|].
  destruct H as (d & _ & Hd & Hrun & _); [by vm_compute|].
  injection Hd as <-. exact Hrun.
Defined.

Lemma getConfig_credential_invariant_witness :
  let persisted : RawConfig := {[ js "OPENAI_KEY" := js "sk-abc" ]} in
  let parsed : ParsedConfig :=
    <[ js "OPENAI_KEY" := VString (js "sk-abc") ]> defaultConfig in
  resolves None persisted parsed
  /\ credential_invariant parsed
  /\ getConfig (sample_parse persisted) (Some (js "OPENAI_KEY=sk-abc")) None
       (Some false) = Ok parsed.
Proof.
  cbn zeta.
  set (persisted := ({[ js "OPENAI_KEY" := js "sk-abc" ]} : RawConfig)).
  set (parsed := <[ js "OPENAI_KEY" := VString (js "sk-abc") ]> defaultConfig).
  assert (resolves None persisted parsed) as Hres.
  { pose proof (getConfig_loop_resolves None persisted) as H.
    assert (for_of (getConfig_body None false persisted) combinedParsers ∅
            = Ok parsed) as E by (vm_compute; reflexivity).
    by rewrite E in H. }
  assert (credential_invariant parsed) as Hinv.
  { left. split; [by vm_compute|]. exists (js "sk-abc").
    split; [by vm_compute|discriminate]. }
  split; [done|]. split; [done|].
  destruct (getConfig_credential_invariant (sample_parse persisted)
              (Some (js "OPENAI_KEY=sk-abc")) None) as [H _].
  destruct (H parsed Hres) as [Hok _]. exact (Hok Hinv).
Defined.

Example getConfig_gateway_without_key :
  getConfig (sample_parse {[ js "USE_AZURE" := js "true" ]})
    (Some (js "USE_AZURE=true")) None None
  = Err missing_azure_key.
Proof. vm_compute. reflexivity. Qed.

Example getConfig_malformed_suppressed :
  getConfig
    (sample_parse {[ js "OPENAI_KEY" := js "abc"; js "generate" := js "9";
                     js "USE_AZURE" := js "maybe" ]})
    (Some (js "...")) None (Some true)
  = Ok (delete (js "OPENAI_KEY")
          (delete (js "generate") (delete (js "USE_AZURE") defaultConfig))).
Proof. vm_compute. reflexivity. Qed.

(** ** The generate-count parser *)

Lemma round_to_double_small (n : N) : n < 2 ^ 53 -> round_to_double n = Finite n.
Proof.
  intros H. unfold round_to_double.
  by destruct (N.ltb_spec n (2 ^ 53)); [|lia].
Qed.

(** From [2^53] on, the rounded value is at least [2^52]. *)
Lemma round_to_double_large (n : N) :
  2 ^ 53 <= n ->
  round_to_double n = Infinity
  \/ exists m, round_to_double n = Finite m /\ 2 ^ 52 <= m.
Proof.
  intros H. unfold round_to_double.
  destruct (N.ltb_spec n (2 ^ 53)); [lia|]. cbn zeta.
  set (e := N.log2 n - 52).
  set (q := N.shiftr n e).
  match goal with
  | |- context [if ?c then q + 1 else q] =>
      set (q' := if c then q + 1 else q)
  end.
  destruct (2 ^ 1024 <=? q' * 2 ^ e); [by left|]. right.
  eexists. split; [reflexivity|].
  assert (53 <= N.log2 n) as Hlog.
  { change 53 with (N.log2 (2 ^ 53)). by apply N.log2_le_mono. }
  assert (2 ^ 52 <= q) as Hq.
  { subst q. rewrite N.shiftr_div_pow2.
    assert (2 ^ 52 = 2 ^ N.log2 n / 2 ^ e) as ->.
    { rewrite <- N.pow_sub_r by (subst e; lia).
      f_equal. subst e. lia. }
    apply N.Div0.div_le_mono.
    apply N.log2_spec. lia. }
  assert (q <= q') as Hq' by (subst q'; destruct (_ || _); lia).
  assert (1 <= 2 ^ e) as He.
  { change 1 with (2 ^ 0). apply N.pow_le_mono_r; lia. }
  nia.
Qed.

(** C8. The generate-count parser answers 1 for an absent or empty value;
    for any other value it returns the integer written by the string when
    the string is made of decimal digits and that integer is between 1 and
    5, and fails otherwise with a validation error that names the key
    [generate]: the value is not a digit string, is 0, or exceeds 5. *)
Theorem generate_count_parser :
  configParsers.generate None = Ok (VNumber (Finite 1))
  /\ configParsers.generate (Some []) = Ok (VNumber (Finite 1))
  /\ forall c s,
      let count := c :: s in
      configParsers.generate (Some count) =
        if negb (forallb is_digit count) then
          Err (KnownError
                 (js "Invalid config property generate: Must be an integer"))
        else if decimal_value count =? 0 then
          Err (KnownError
                 (js "Invalid config property generate: Must be greater than 0"))
        else if 5 <? decimal_value count then
          Err (KnownError
                 (js "Invalid config property generate: Must be less or equal to 5"))
        else Ok (VNumber (Finite (decimal_value count))).
Proof.
  split; [reflexivity|]. split; [reflexivity|].
  intros c s count. unfold configParsers.generate.
  change (re_digits_test count) with (forallb is_digit count).
  fold count. destruct (forallb is_digit count); [|reflexivity].
  cbn [negb parseAssert mbind Result_bind]. unfold Number_of_digits.
  set (n := decimal_value count).
  destruct (N.ltb_spec n (2 ^ 53)) as [Hsmall|Hlarge].
  - rewrite (round_to_double_small n Hsmall). cbn [num_ltb num_leb].
    destruct (N.eqb_spec n 0) as [->|Hn0]; [reflexivity|].
    destruct (N.ltb_spec 0 n); [|lia]. cbn [mbind Result_bind].
    destruct (N.leb_spec n 5), (N.ltb_spec 5 n); try lia; reflexivity.
  - assert (2 ^ 52 <= n) as Hn.
    { etrans; [|exact Hlarge]. by vm_compute. }
    assert (6 <= 2 ^ 52) as H6 by (by vm_compute).
    destruct (N.eqb_spec n 0); [lia|].
    destruct (N.ltb_spec 5 n); [|lia].
    destruct (round_to_double_large n Hlarge) as [->|(m & -> & Hm)];
      [reflexivity|].
    cbn [num_ltb num_leb].
    destruct (N.ltb_spec 0 m); [|lia]. cbn [mbind Result_bind].
    destruct (N.leb_spec m 5); [lia|reflexivity].
Qed.

Example generate_3 : configParsers.generate (Some (js "3")) = Ok (VNumber (Finite 3)).
Proof. vm_compute. reflexivity. Qed.

Example generate_leading_zeros :
  configParsers.generate (Some (js "0005")) = Ok (VNumber (Finite 5)).
Proof. vm_compute. reflexivity. Qed.

Example generate_6 :
  configParsers.generate (Some (js "6"))
  = Err (KnownError
           (js "Invalid config property generate: Must be less or equal to 5")).
Proof. vm_compute. reflexivity. Qed.

Example timeout_rounds_to_double :
  configParsers.timeout (Some (js "9007199254740993"))
  = Ok (VNumber (Finite 9007199254740992)).
Proof. vm_compute. reflexivity. Qed.

(** ** Sanitizing a candidate *)

Example sanitize_plain :
  sanitizeMessage (js "  Fix the parser." ++ nl) = js "Fix the parser".
Proof. vm_compute. reflexivity. Qed.

Example sanitize_inner_breaks :
  sanitizeMessage (js "Add tests" ++ [13; 10] ++ js "and docs")
  = js "Add testsand docs".
Proof. vm_compute. reflexivity. Qed.

Example sanitize_ellipsis : sanitizeMessage (js "Work in progress...")
                            = js "Work in progress...".
Proof. vm_compute. reflexivity. Qed.

(** C4, as stated, fails: a period that follows a character that is not a
    word character stays. *)
Lemma sanitizeMessage_counterexample :
  sanitizeMessage (js "Update docs (see README).")
  = js "Update docs (see README)."
  /\ sanitize_as_stated (js "Update docs (see README).")
     = js "Update docs (see README)".
Proof. split; vm_compute; reflexivity. Qed.

Lemma trimStart_spec (s : jsstring) :
  exists l, s = l ++ trimStart s
            /\ forallb is_whitespace l = true
            /\ forall c, head (trimStart s) = Some c -> is_whitespace c = false.
Proof.
  induction s as [|c rest (l & Heq & Hl & Hhd)]; [by exists []|].
  cbn [trimStart]. destruct (is_whitespace c) eqn:Hc.
  - exists (c :: l). split; [by rewrite Heq at 1|]. split; [|done].
    cbn. by rewrite Hc, Hl.
  - exists []. split; [done|]. split; [done|]. by intros c' [= <-].
Qed.

Lemma trimEnd_spec (s : jsstring) :
  exists r, s = trimEnd s ++ r
            /\ forallb is_whitespace r = true
            /\ (forall c, last (trimEnd s) = Some c -> is_whitespace c = false)
            /\ head (trimEnd s) = (if forallb is_whitespace s then None else head s).
Proof.
  induction s as [|c rest (r & Heq & Hr & Hlast & Hhd)]; [by exists []|].
  cbn [trimEnd forallb]. destruct (trimEnd rest) as [|k kept] eqn:Hk.
  - cbn in Heq. subst r. rewrite Hr, andb_true_r.
    destruct (is_whitespace c) eqn:Hc.
    + exists (c :: rest). repeat split; [|done..]. cbn. by rewrite Hc, Hr.
    + exists rest. repeat split; [done|]. by intros c' [= <-].
  - exists r. split; [by rewrite Heq at 1|]. split; [done|]. split.
    + intros c' Hc'. apply Hlast. by rewrite last_cons_cons in Hc'.
    + cbn. destruct (forallb is_whitespace rest); [done|].
      by rewrite andb_false_r.
Qed.

(** [trim] removes a whitespace prefix and a whitespace suffix and leaves a
    text that neither starts nor ends with whitespace. *)
Lemma trim_spec (s : jsstring) :
  exists l r,
    s = l ++ trim s ++ r
    /\ forallb is_whitespace l = true
    /\ forallb is_whitespace r = true
    /\ (forall c, head (trim s) = Some c -> is_whitespace c = false)
    /\ (forall c, last (trim s) = Some c -> is_whitespace c = false).
Proof.
  destruct (trimStart_spec s) as (l & Hl & Hlws & Hhd).
  destruct (trimEnd_spec (trimStart s)) as (r & Hr & Hrws & Hlast & Hhd').
  exists l, r. unfold trim. split; [by rewrite <- Hr|].
  split; [done|]. split; [done|]. split; [|done].
  intros c Hc. rewrite Hhd' in Hc.
  destruct (forallb is_whitespace (trimStart s)); [done|]. by apply Hhd.
Qed.

Lemma replace_word_period_end_match (p : jsstring) (w : N) :
  is_word w = true -> replace_word_period_end (p ++ [w; 46]) = p ++ [w].
Proof.
  intros Hw. induction p as [|a p IH]; cbn [replace_word_period_end app].
  - by rewrite Hw, bool_decide_eq_true_2.
  - assert (p ++ [w; 46] <> [46]) as Hne.
    { intros H%(f_equal length). rewrite length_app in H. cbn in H. lia. }
    by rewrite (bool_decide_eq_false_2 _ Hne), andb_false_r, IH.
Qed.

Lemma replace_word_period_end_no_match (s : jsstring) :
  (forall p w, s = p ++ [w; 46] -> is_word w = false) ->
  replace_word_period_end s = s.
Proof.
  induction s as [|c rest IH]; [done|]. intros Hno.
  cbn [replace_word_period_end]. case_bool_decide as Hrest.
  - subst rest. rewrite (Hno [] c eq_refl). cbn. done.
  - rewrite andb_false_r, IH; [done|].
    intros p w ->. apply (Hno (c :: p) w). done.
Qed.

Lemma replace_word_period_end_spec (s : jsstring) :
  replace_word_period_end s = strip_period_after_word s.
Proof.
  unfold strip_period_after_word.
  destruct (reverse s) as [|d [|w rest]] eqn:Hrev;
    apply (f_equal reverse) in Hrev; rewrite reverse_involutive in Hrev.
  - by subst s.
  - subst s. change (reverse [d]) with [d]. cbn [replace_word_period_end].
    by destruct (_ && _).
  - rewrite !reverse_cons, <- app_assoc in Hrev. cbn [app] in Hrev.
    destruct ((d =? 46) && is_word w) eqn:Hc.
    + apply andb_true_iff in Hc as [->%N.eqb_eq Hw].
      subst s. rewrite reverse_cons. by apply replace_word_period_end_match.
    + apply replace_word_period_end_no_match. intros p w' Heq.
      rewrite Hrev in Heq.
      change [w; d] with ([w] ++ [d]) in Heq.
      change [w'; 46] with ([w'] ++ [46]) in Heq.
      rewrite !app_assoc in Heq.
      apply app_inj_tail in Heq as [Heq ->].
      apply app_inj_tail in Heq as [_ ->].
      by rewrite N.eqb_refl in Hc.
Qed.

(** C4 (amended). The sanitized text is the input trimmed of leading and
    trailing whitespace, with every line feed and carriage return removed,
    and with a trailing period removed when a word character (a letter, a
    digit or an underscore) comes right before it. *)
Theorem sanitizeMessage_spec (message : jsstring) :
  sanitizeMessage message
  = strip_period_after_word (filter (fun c => c <> 10 /\ c <> 13) (trim message))
  /\ exists l r,
      message = l ++ trim message ++ r
      /\ forallb is_whitespace l = true
      /\ forallb is_whitespace r = true
      /\ (forall c, head (trim message) = Some c -> is_whitespace c = false)
      /\ (forall c, last (trim message) = Some c -> is_whitespace c = false).
Proof.
  split; [|apply trim_spec].
  unfold sanitizeMessage. rewrite replace_word_period_end_spec. f_equal.
  unfold remove_line_breaks. apply list_filter_iff. intros c.
  unfold is_line_break.
  destruct (N.eqb_spec c 10), (N.eqb_spec c 13); cbn; split;
    try done; intros []; done.
Qed.

(** ** Deduplication *)

Lemma first_occurrences_filter (P : jsstring -> Prop)
    `{!forall x, Decision (P x)} (l : list jsstring) :
  filter P (first_occurrences l) = first_occurrences (filter P l).
Proof.
  induction l as [|x rest IH]; [done|]. cbn [first_occurrences].
  destruct (decide (P x)) as [HP|HP].
  - rewrite !filter_cons_True by done. cbn [first_occurrences].
    rewrite <- IH. f_equal. rewrite !list_filter_filter.
    apply list_filter_iff. tauto.
  - rewrite !filter_cons_False by done. rewrite <- IH.
    rewrite list_filter_filter. apply list_filter_iff.
    intros y. split; [tauto|]. intros Hy. split; [done|]. by intros ->.
Qed.

Lemma elem_of_first_occurrences (l : list jsstring) (x : jsstring) :
  x ∈ first_occurrences l <-> x ∈ l.
Proof.
  induction l as [|y rest IH]; [done|]. cbn [first_occurrences].
  rewrite !elem_of_cons, list_elem_of_filter, IH.
  destruct (decide (x = y)); tauto.
Qed.

Lemma NoDup_first_occurrences (l : list jsstring) : NoDup (first_occurrences l).
Proof.
  induction l as [|y rest IH]; [constructor|]. cbn [first_occurrences].
  apply NoDup_cons. split; [|by apply NoDup_filter].
  rewrite list_elem_of_filter. tauto.
Qed.

(** Adding the elements of [l] to a set [set]: the set, then the elements of
    [l] that it lacked, each where it first occurs. *)
Lemma fold_Set_add (l set : list jsstring) :
  fold_left Set_add l set
  = set ++ first_occurrences (filter (fun x => x ∉ set) l).
Proof.
  revert set. induction l as [|x rest IH]; intros set.
  { cbn. by rewrite app_nil_r. }
  cbn [fold_left]. rewrite IH. unfold Set_add.
  destruct (decide (x ∈ set)) as [Hin|Hin].
  - by rewrite filter_cons_False by tauto.
  - rewrite filter_cons_True by done. cbn [first_occurrences].
    rewrite <- app_assoc. cbn [app]. do 2 f_equal.
    rewrite first_occurrences_filter, list_filter_filter. f_equal.
    apply list_filter_iff. intros y.
    rewrite not_elem_of_app, list_elem_of_singleton. tauto.
Qed.

Lemma deduplicateMessages_first_occurrences (array : list jsstring) :
  deduplicateMessages array = first_occurrences array.
Proof.
  unfold deduplicateMessages, new_Set. rewrite fold_Set_add. cbn [app].
  induction array as [|x rest IH]; [done|].
  rewrite filter_cons_True by apply not_elem_of_nil.
  cbn [first_occurrences]. by rewrite IH.
Qed.

(** Up to the first occurrence of [x], the result is settled. *)
Lemma deduplicateMessages_first_position (l1 l2 : list jsstring) (x : jsstring) :
  x ∉ l1 ->
  exists r2,
    deduplicateMessages (l1 ++ x :: l2) = deduplicateMessages l1 ++ x :: r2.
Proof.
  intros Hnot. unfold deduplicateMessages, new_Set.
  rewrite fold_left_app. cbn [fold_left].
  assert (Set_add (fold_left Set_add l1 []) x = fold_left Set_add l1 [] ++ [x])
    as ->.
  { unfold Set_add. destruct (decide _) as [Hin|]; [|done].
    rewrite fold_Set_add in Hin. cbn [app] in Hin.
    apply elem_of_first_occurrences, list_elem_of_filter in Hin. tauto. }
  rewrite (fold_Set_add l2). rewrite <- app_assoc. cbn [app]. eauto.
Qed.

Example deduplicate_two_equal :
  deduplicateMessages [ js "Fix bug"; js "Add test"; js "Fix bug" ]
  = [ js "Fix bug"; js "Add test" ].
Proof. vm_compute. reflexivity. Qed.

(** ** Running the completion client *)

Lemma run_bind {A B : Type} (network : HttpsRequest -> HttpsEvent)
    (p : Async A) (f : A -> Async B) :
  run network (p ≫= f)
  = match run network p with
    | Ok a => run network (f a)
    | Err e => Err e
    end.
Proof.
  unfold mbind, Async_mbind.
  induction p as [a|e|request k IH]; cbn; [done..|]. apply IH.
Qed.

Lemma run_try_catch {A : Type} (network : HttpsRequest -> HttpsEvent)
    (p : Async A) (handler : Error -> Async A) :
  run network (try_catch p handler)
  = match run network p with
    | Ok a => Ok a
    | Err e => run network (handler e)
    end.
Proof. induction p as [a|e|request k IH]; cbn; [done..|]. apply IH. Qed.

Lemma requests_bind {A B : Type} (network : HttpsRequest -> HttpsEvent)
    (p : Async A) (f : A -> Async B) :
  requests network (p ≫= f)
  = requests network p
    ++ match run network p with
       | Ok a => requests network (f a)
       | Err _ => []
       end.
Proof.
  unfold mbind, Async_mbind.
  induction p as [a|e|request k IH]; cbn; [done..|]. f_equal. apply IH.
Qed.

Lemma requests_try_catch {A : Type} (network : HttpsRequest -> HttpsEvent)
    (p : Async A) (handler : Error -> Async A) :
  requests network (try_catch p handler)
  = requests network p
    ++ match run network p with
       | Ok _ => []
       | Err e => requests network (handler e)
       end.
Proof.
  induction p as [a|e|request k IH]; cbn; [done..|]. f_equal. apply IH.
Qed.

Section CompletionClientFacts.

Variable JSON_stringify : ChatRequest.t -> jsstring.
Variable JSON_parse : jsstring -> option ChatResponse.t.
Variable generatePrompt : jsstring -> JsNumber -> jsstring -> jsstring.
Variable exponential_notation : N -> jsstring.

Local Abbreviation createChatCompletion :=
  (createChatCompletion JSON_stringify JSON_parse exponential_notation).
Local Abbreviation generateCommitMessage :=
  (generateCommitMessage JSON_stringify JSON_parse generatePrompt
     exponential_notation).
Local Abbreviation Number_toString := (Number_toString exponential_notation).

(** The outcome of [createChatCompletion] when the request is answered by
    a response. *)
Lemma run_createChatCompletion (network : HttpsRequest -> HttpsEvent)
    (useAzure : bool) (url apiKey : jsstring) (json : ChatRequest.t)
    (timeout : JsNumber) (proxy : option jsstring)
    (status : N) (text : option jsstring) (data : jsstring) :
  (forall request,
      network request
      = ResponseEnd {| statusCode := Some status; statusMessage := text |} data) ->
  run network (createChatCompletion useAzure url apiKey json timeout proxy)
  = if (200 <=? status) && (status <=? 299) then
      match JSON_parse data with
      | Some completion => Ok completion
      | None => Err SyntaxError
      end
    else
      Err (KnownError
             (js "API Error: " ++ Number_toString (Finite status)
              ++ js " - " ++ template text
              ++ (match data with [] => [] | _ :: _ => nl ++ nl ++ data end)
              ++ (if status =? 500
                  then nl ++ nl
                       ++ js "Check the API status: https://status.openai.com"
                  else []))).
Proof.
  intros Hnet. unfold createChatCompletion, httpsPost.
  cbn [mbind Async_mbind Async_bind run]. rewrite Hnet.
  cbn [Async_bind statusCode statusMessage].
  assert ((match status with
           | 0 => true
           | _ => (status <? 200) || (299 <? status)
           end) = negb ((200 <=? status) && (status <=? 299))) as ->.
  { destruct (N.leb_spec 200 status), (N.leb_spec status 299),
      (N.ltb_spec status 200), (N.ltb_spec 299 status);
      destruct status; cbn; try done; lia. }
  destruct ((200 <=? status) && (status <=? 299)) eqn:Hok; cbn [negb].
  { by destruct (JSON_parse data). }
  cbn [run]. do 2 f_equal.
  assert (bool_decide (Some status = Some 500) = (status =? 500)) as ->.
  { destruct (N.eqb_spec status 500) as [->|Hne]; [done|].
    apply bool_decide_eq_false_2. congruence. }
  destruct data, (status =? 500);
    rewrite <- ?app_assoc, ?app_nil_r; reflexivity.
Qed.

(** C6. A response whose status code is outside [200, 299] makes the
    completion client fail with an API error whose message carries the
    status code, the status text and the raw body, and advises to check the
    service status exactly when the code is 500; a status code inside
    [200, 299] raises no API error: the body is parsed. *)
Theorem createChatCompletion_status (network : HttpsRequest -> HttpsEvent)
    (useAzure : bool) (url apiKey : jsstring) (json : ChatRequest.t)
    (timeout : JsNumber) (proxy : option jsstring)
    (status : N) (text data : jsstring) :
  (forall request,
      network request
      = ResponseEnd
          {| statusCode := Some status; statusMessage := Some text |} data) ->
  let outcome :=
    run network (createChatCompletion useAzure url apiKey json timeout proxy) in
  let body := match data with [] => [] | _ :: _ => nl ++ nl ++ data end in
  let advice :=
    nl ++ nl ++ js "Check the API status: https://status.openai.com" in
  let message :=
    js "API Error: " ++ Number_toString (Finite status) ++ js " - " ++ text
    ++ body in
  (status < 200 \/ 299 < status ->
   outcome = Err (KnownError (if status =? 500 then message ++ advice
                              else message)))
  /\ (200 <= status <= 299 ->
      outcome = match JSON_parse data with
                | Some completion => Ok completion
                | None => Err SyntaxError
                end).
Proof.
  intros Hnet. cbn zeta.
  rewrite (run_createChatCompletion network useAzure url apiKey json timeout
             proxy status (Some text) data Hnet).
  cbn [template default]. split.
  - intros Hout.
    destruct (N.leb_spec 200 status), (N.leb_spec status 299); try lia;
      cbn [andb]; do 2 f_equal; destruct (status =? 500);
      rewrite <- ?app_assoc, ?app_nil_r; reflexivity.
  - intros [Hlo Hhi].
    by destruct (N.leb_spec 200 status), (N.leb_spec status 299); try lia.
Qed.

(** The request that [createChatCompletion] issues: one, whatever the
    network answers. *)
Lemma requests_createChatCompletion (network : HttpsRequest -> HttpsEvent)
    (useAzure : bool) (target apiKey : jsstring) (json : ChatRequest.t)
    (limit : JsNumber) (tunnel : option jsstring) :
  exists request,
    requests network
      (createChatCompletion useAzure target apiKey json limit tunnel)
    = [request]
    /\ url request = target
    /\ headers request
       = (if useAzure then [ (js "api-key", apiKey) ]
          else [ (js "Authorization", js "Bearer " ++ apiKey) ])
         ++ [ (js "Content-Type", js "application/json");
              (js "Content-Length",
               Number_toString (Finite (byteLength (JSON_stringify json)))) ]
    /\ postContent request = JSON_stringify json
    /\ request_timeout request = limit.
Proof.
  unfold createChatCompletion, httpsPost.
  cbn [mbind Async_mbind Async_bind requests].
  eexists. split.
  { f_equal. destruct (network _) as [response data|e|];
      cbn [Async_bind requests]; [|done..].
    destruct (statusCode response) as [[|status]|]; [done| |done].
    destruct (_ || _); [done|]. by destruct (JSON_parse data). }
  by repeat split.
Qed.

(** C7. [generateCommitMessage] issues one request. In gateway mode it goes
    to the configured gateway endpoint with an [api-key] header that
    carries the gateway key; in direct mode it goes to the fixed
    chat-completion endpoint with an [Authorization] header that carries
    the direct API key as a bearer token. *)
Theorem generateCommitMessage_request (network : HttpsRequest -> HttpsEvent)
    (config : ValidConfig) (diff : jsstring) :
  exists request contentLength,
    requests network (generateCommitMessage config diff) = [request]
    /\ url request
       = (if USE_AZURE config then AZURE_OPENAI_ENDPOINT config
          else js "https://api.openai.com/v1/chat/completions")
    /\ headers request
       = (if USE_AZURE config
          then (js "api-key", AZURE_OPENAI_KEY config)
          else (js "Authorization", js "Bearer " ++ OPENAI_KEY config))
         :: [ (js "Content-Type", js "application/json");
              (js "Content-Length", contentLength) ].
Proof.
  unfold generateCommitMessage. cbn zeta.
  rewrite requests_try_catch, requests_bind, run_bind.
  match goal with
  | |- context [requests network (createChatCompletion ?a ?u ?k ?j ?t ?p)] =>
      destruct (requests_createChatCompletion network a u k j t p)
        as (request & -> & Hurl & Hheaders & _);
      destruct (run network (createChatCompletion a u k j t p))
  end.
  all: exists request; eexists.
  all: split; [|split; [exact Hurl|]].
  all: try (rewrite Hheaders; by destruct (USE_AZURE config)).
  - reflexivity.
  - cbn [app]. by case_bool_decide.
Qed.

(** C5. When the response is accepted, [generateCommitMessage] returns the
    sanitized texts of the choices that have content, every distinct text
    once and where it first occurs: there is no duplicate, the texts are
    the same, and the entries before a text are the distinct texts that
    come before its first occurrence. *)
Theorem generateCommitMessage_candidates
    (network : HttpsRequest -> HttpsEvent) (config : ValidConfig)
    (diff : jsstring) (status : N) (text : option jsstring) (data : jsstring)
    (completion : ChatResponse.t) :
  (forall request,
      network request
      = ResponseEnd {| statusCode := Some status; statusMessage := text |} data) ->
  200 <= status <= 299 ->
  JSON_parse data = Some completion ->
  let texts := candidate_texts (ChatResponse.choices completion) in
  exists result,
    run network (generateCommitMessage config diff) = Ok result
    /\ result = first_occurrences texts
    /\ NoDup result
    /\ (forall x, x ∈ result <-> x ∈ texts)
    /\ (forall l1 x l2,
          texts = l1 ++ x :: l2 -> x ∉ l1 ->
          exists r2, result = first_occurrences l1 ++ x :: r2).
Proof.
  intros Hnet [Hlo Hhi] Hparse texts. exists (deduplicateMessages texts).
  split; [|split; [|split; [|split]]].
  - unfold generateCommitMessage. cbn zeta.
    rewrite run_try_catch, run_bind.
    erewrite run_createChatCompletion by exact Hnet.
    destruct (N.leb_spec 200 status), (N.leb_spec status 299); try lia.
    cbn [andb]. by rewrite Hparse.
  - apply deduplicateMessages_first_occurrences.
  - rewrite deduplicateMessages_first_occurrences.
    apply NoDup_first_occurrences.
  - intros x. rewrite deduplicateMessages_first_occurrences.
    apply elem_of_first_occurrences.
  - intros l1 x l2 -> Hnot.
    destruct (deduplicateMessages_first_position l1 l2 x Hnot) as [r2 ->].
    exists r2. by rewrite deduplicateMessages_first_occurrences.
Qed.

End CompletionClientFacts.

(** ** Concrete runs of the completion client *)

Lemma generateCommitMessage_candidates_witness :
  run (sample_network 200 (js "OK") (js "{}"))
    (generateCommitMessage (fun _ => js "{}") (fun _ => Some sample_completion)
       (fun _ _ _ => js "prompt") (fun _ => js "1e+21")
       sample_config (js "diff --git"))
  = Ok [ js "Fix bug"; js "Add tests" ].
Proof.
  destruct (generateCommitMessage_candidates
              (fun _ => js "{}") (fun _ => Some sample_completion)
              (fun _ _ _ => js "prompt") (fun _ => js "1e+21")
              (sample_network 200 (js "OK") (js "{}")) sample_config (js "diff --git")
              200 (Some (js "OK")) (js "{}") sample_completion)
    as (result & -> & -> & _).
  - reflexivity.
  - lia.
  - reflexivity.
  - vm_compute. reflexivity.
Defined.

Lemma createChatCompletion_status_witness :
  run (sample_network 500 (js "Internal Server Error") (js "overloaded"))
    (createChatCompletion (fun _ => js "{}") (fun _ => Some sample_completion)
       (fun _ => js "1e+21") false
       (js "https://api.openai.com/v1/chat/completions") (js "sk-abc")
       {| ChatRequest.model := js "gpt-3.5-turbo"; ChatRequest.messages := [];
          ChatRequest.temperature := 7 # 10; ChatRequest.top_p := 1;
          ChatRequest.frequency_penalty := 0; ChatRequest.presence_penalty := 0;
          ChatRequest.max_tokens := 200; ChatRequest.stream := false;
          ChatRequest.n := Finite 1 |}
       (Finite 10000) None)
  = Err (KnownError
           (js "API Error: 500 - Internal Server Error" ++ nl ++ nl
            ++ js "overloaded" ++ nl ++ nl
            ++ js "Check the API status: https://status.openai.com")).
Proof.
  match goal with
  | |- run ?net (createChatCompletion ?s ?p ?x ?a ?u ?k ?j ?t ?pr) = _ =>
      destruct (createChatCompletion_status s p x net a u k j t pr 500
                  (js "Internal Server Error") (js "overloaded")) as [H _];
      [reflexivity|rewrite H by (right; lia)]
  end.
  vm_compute. reflexivity.
Defined.

Example createChatCompletion_404_no_advice :
  run (sample_network 404 (js "Not Found") [])
    (generateCommitMessage (fun _ => js "{}") (fun _ => Some sample_completion)
       (fun _ _ _ => js "prompt") (fun _ => js "1e+21")
       sample_config (js "diff --git"))
  = Err (KnownError (js "API Error: 404 - Not Found")).
Proof. vm_compute. reflexivity. Qed.

Example generateCommitMessage_timeout :
  run (fun _ => RequestTimeout)
    (generateCommitMessage (fun _ => js "{}") (fun _ => Some sample_completion)
       (fun _ _ _ => js "prompt") (fun _ => js "1e+21")
       sample_config (js "diff --git"))
  = Err (KnownError
           (js "Time out error: request took over 10000ms. Try increasing the `timeout` config, or checking the OpenAI API status https://status.openai.com")).
Proof. vm_compute. reflexivity. Qed.

Example generateCommitMessage_host_not_found :
  run (fun _ => RequestError
                  (NodeError (Some (js "ENOTFOUND")) (Some (js "api.openai.com"))
                     (Some (js "getaddrinfo"))))
    (generateCommitMessage (fun _ => js "{}") (fun _ => Some sample_completion)
       (fun _ _ _ => js "prompt") (fun _ => js "1e+21")
       sample_config (js "diff --git"))
  = Err (KnownError
           (js "Error connecting to api.openai.com (getaddrinfo). Are you connected to the internet?")).
Proof. vm_compute. reflexivity. Qed.

Example generateCommitMessage_gateway_request :
  requests (sample_network 200 (js "OK") (js "{}"))
    (generateCommitMessage (fun _ => js "{}") (fun _ => Some sample_completion)
       (fun _ _ _ => js "prompt") (fun _ => js "1e+21")
       {| OPENAI_KEY := []; USE_AZURE := true;
          AZURE_OPENAI_KEY := js "gateway-key";
          AZURE_OPENAI_ENDPOINT := js "https://gateway.example/chat";
          proxy := Some (js "http://proxy:8080"); generate := Finite 1;
          timeout := Finite 500; locale := js "en"; max_length := Finite 50;
          model := js "gpt-4"; type := js "conventional" |}
       (js "diff --git"))
  = [ {| url := js "https://gateway.example/chat";
         port := 443;
         method := js "POST";
         headers := [ (js "api-key", js "gateway-key");
                      (js "Content-Type", js "application/json");
                      (js "Content-Length", js "2") ];
         request_timeout := Finite 500;
         agent := Some (js "http://proxy:8080");
         postContent := js "{}" |} ].
Proof. vm_compute. reflexivity. Qed.

(** ** More about the parsers *)

Lemma startsWith_spec (s p : jsstring) :
  startsWith s p = true <-> exists rest, s = p ++ rest.
Proof.
  revert s. induction p as [|b p IH]; intros s.
  { split; [by exists s|by destruct s]. }
  destruct s as [|a s]; cbn [startsWith].
  { split; [done|]. by intros [rest ?]. }
  rewrite andb_true_iff, N.eqb_eq, IH. split.
  - intros [-> [rest ->]]. by exists rest.
  - intros [rest [= -> ->]]. split; [done|]. by exists rest.
Qed.

Lemma re_http_test_spec (s : jsstring) :
  re_http_test s = true
  <-> exists rest, s = js "http://" ++ rest \/ s = js "https://" ++ rest.
Proof.
  unfold re_http_test. rewrite orb_true_iff, !startsWith_spec.
  split.
  - intros [[rest ->]|[rest ->]]; exists rest; [by left|by right].
  - intros [rest [-> | ->]]; [left|right]; by exists rest.
Qed.



(** X2. A parser of a string-valued key never rewrites what it accepts: a
    non-empty raw value that passes is returned as it is. *)
Theorem string_parser_returns_input (key : jsstring) (parser : Parser)
    (value : jsstring) (v : JsValue) :
  (key, parser) ∈ combinedParsers ->
  key ∈ string_keys ->
  value <> [] ->
  parser (Some value) = Ok v ->
  v = VString value.
Proof.
  intros Hin Hkey Hne Hok. destruct value as [|c value]; [done|].
  elem_of_parsers Hin.
  all: try (exfalso; revert Hkey; apply (bool_decide_eq_false_1 _);
            by vm_compute).
  all: cbv beta delta
         [azureConfigParsers.AZURE_OPENAI_KEY
          azureConfigParsers.AZURE_OPENAI_ENDPOINT configParsers.OPENAI_KEY
          configParsers.locale configParsers.type
          configParsers.proxy configParsers.model] iota zeta in Hok.
  all: split_asserts; try discriminate Hok.
  all: by injection Hok as <-.
Qed.

Lemma string_parser_returns_input_witness :
  VString (js "pt-BR") = VString (js "pt-BR").
Proof.
  apply (string_parser_returns_input (js "locale") configParsers.locale).
  - unfold combinedParsers. do 4 (apply elem_of_cons; right).
    apply elem_of_cons. by left.
  - apply (bool_decide_unpack _). by vm_compute.
  - discriminate.
  - vm_compute. reflexivity.
Defined.

(** X3. The direct API key is accepted exactly when it is empty or begins
    with [sk-]; nothing after the prefix is looked at, so [sk-] alone
    passes. *)
Theorem OPENAI_KEY_prefix_rule (c : N) (s : jsstring) :
  let key := c :: s in
  ((exists rest, key = js "sk-" ++ rest) ->
   configParsers.OPENAI_KEY (Some key) = Ok (VString key))
  /\ ((forall rest, key <> js "sk-" ++ rest) ->
      configParsers.OPENAI_KEY (Some key)
      = Err (KnownError
               (js "Invalid config property OPENAI_KEY: Must start with "
                ++ dquote ++ js "sk-" ++ dquote)))
  /\ configParsers.OPENAI_KEY (Some (js "sk-")) = Ok (VString (js "sk-")).
Proof.
  cbn zeta. split; [|split; [|reflexivity]].
  - intros Hpre%startsWith_spec. unfold configParsers.OPENAI_KEY.
    by rewrite Hpre.
  - intros Hno. unfold configParsers.OPENAI_KEY.
    destruct (startsWith (c :: s) (js "sk-")) eqn:Hpre; [|reflexivity].
    apply startsWith_spec in Hpre as [rest Hrest]. by destruct (Hno rest).
Qed.

(** X4. The proxy and the gateway endpoint are accepted exactly when they
    are empty or begin with [http://] or [https://]; only the scheme is
    checked.  An accepted non-empty value is returned unchanged. *)
Theorem url_parsers_scheme_rule (c : N) (s : jsstring) :
  let u := c :: s in
  ((exists rest, u = js "http://" ++ rest \/ u = js "https://" ++ rest) ->
   configParsers.proxy (Some u) = Ok (VString u)
   /\ azureConfigParsers.AZURE_OPENAI_ENDPOINT (Some u) = Ok (VString u))
  /\ ((forall rest, u <> js "http://" ++ rest /\ u <> js "https://" ++ rest) ->
      configParsers.proxy (Some u)
      = Err (KnownError (js "Invalid config property proxy: Must be a valid URL"))
      /\ azureConfigParsers.AZURE_OPENAI_ENDPOINT (Some u)
         = Err (KnownError
                  (js "Invalid config property AZURE_OPENAI_ENDPOINT: Must be a valid URL"))).
Proof.
  cbn zeta. split.
  - intros Hpre%re_http_test_spec.
    unfold configParsers.proxy, azureConfigParsers.AZURE_OPENAI_ENDPOINT.
    by rewrite Hpre.
  - intros Hno.
    unfold configParsers.proxy, azureConfigParsers.AZURE_OPENAI_ENDPOINT.
    destruct (re_http_test (c :: s)) eqn:Hpre; [|done].
    apply re_http_test_spec in Hpre as [rest Hrest].
    destruct (Hno rest) as [H1 H2]. by destruct Hrest.
Qed.

(** Comparing a rounded value with a bound below [2^52] is comparing the
    exact value. *)
Lemma num_leb_round_to_double (bound n : N) :
  bound <= 2 ^ 52 ->
  num_leb (Finite bound) (round_to_double n) = (bound <=? n).
Proof.
  intros Hbound. destruct (N.ltb_spec n (2 ^ 53)) as [Hsmall|Hlarge].
  { by rewrite (round_to_double_small n Hsmall). }
  assert (2 ^ 52 <= n) as Hn.
  { etrans; [|exact Hlarge]. by vm_compute. }
  destruct (N.leb_spec bound n); [|lia].
  destruct (round_to_double_large n Hlarge) as [->|(m & -> & Hm)]; [done|].
  cbn [num_leb]. apply N.leb_le. lia.
Qed.

(** X5. The timeout parser answers 10000 for an absent or empty value.  Any
    other value must be a string of decimal digits whose value is at least
    500 ([500] itself passes, although the message says greater); the result
    is that value as a double, hence the exact value below [2^53]. *)
Theorem timeout_parser :
  configParsers.timeout None = Ok (VNumber (Finite 10000))
  /\ configParsers.timeout (Some []) = Ok (VNumber (Finite 10000))
  /\ forall c s,
      let raw := c :: s in
      configParsers.timeout (Some raw) =
        (if negb (forallb is_digit raw) then
           Err (KnownError
                  (js "Invalid config property timeout: Must be an integer"))
         else if decimal_value raw <? 500 then
           Err (KnownError
                  (js "Invalid config property timeout: Must be greater than 500ms"))
         else Ok (VNumber (round_to_double (decimal_value raw))))
      /\ (decimal_value raw < 2 ^ 53 ->
          round_to_double (decimal_value raw) = Finite (decimal_value raw)).
Proof.
  split; [reflexivity|]. split; [reflexivity|].
  intros c s raw. split; [|apply round_to_double_small].
  unfold configParsers.timeout.
  change (re_digits_test raw) with (forallb is_digit raw). fold raw.
  destruct (forallb is_digit raw); [|reflexivity].
  cbn [negb parseAssert mbind Result_bind]. unfold Number_of_digits.
  rewrite num_leb_round_to_double by (by vm_compute).
  rewrite N.ltb_antisym. by destruct (500 <=? decimal_value raw).
Qed.

(** X6. The max-length parser answers 50 for an absent or empty value.  Any
    other value must be a string of decimal digits whose value is at least 20
    ([20] itself passes); the result is that value as a double. *)
Theorem max_length_parser :
  configParsers.max_length None = Ok (VNumber (Finite 50))
  /\ configParsers.max_length (Some []) = Ok (VNumber (Finite 50))
  /\ forall c s,
      let raw := c :: s in
      configParsers.max_length (Some raw) =
        (if negb (forallb is_digit raw) then
           Err (KnownError
                  (js "Invalid config property max-length: Must be an integer"))
         else if decimal_value raw <? 20 then
           Err (KnownError
                  (js "Invalid config property max-length: Must be greater than 20 characters"))
         else Ok (VNumber (round_to_double (decimal_value raw))))
      /\ (decimal_value raw < 2 ^ 53 ->
          round_to_double (decimal_value raw) = Finite (decimal_value raw)).
Proof.
  split; [reflexivity|]. split; [reflexivity|].
  intros c s raw. split; [|apply round_to_double_small].
  unfold configParsers.max_length.
  change (re_digits_test raw) with (forallb is_digit raw). fold raw.
  destruct (forallb is_digit raw); [|reflexivity].
  cbn [negb parseAssert mbind Result_bind]. unfold Number_of_digits.
  rewrite num_leb_round_to_double by (by vm_compute).
  rewrite N.ltb_antisym. by destruct (20 <=? decimal_value raw).
Qed.

Example timeout_500 :
  configParsers.timeout (Some (js "500")) = Ok (VNumber (Finite 500)).
Proof. vm_compute. reflexivity. Qed.

Example timeout_499 :
  configParsers.timeout (Some (js "499"))
  = Err (KnownError
           (js "Invalid config property timeout: Must be greater than 500ms")).
Proof. vm_compute. reflexivity. Qed.

Lemma re_locale_test_spec (c : N) (s : jsstring) :
  re_locale_test (c :: s) = true <-> Forall letter_or_dash (c :: s).
Proof.
  unfold re_locale_test. generalize (c :: s). clear c s. intros l.
  induction l as [|a l IH]; [by split|].
  cbn [forallb]. rewrite andb_true_iff, IH, Forall_cons.
  assert (is_upper a || is_lower a || (a =? 45) = true <-> letter_or_dash a)
    as ->; [|done].
  unfold is_upper, is_lower, letter_or_dash.
  rewrite !orb_true_iff, !andb_true_iff, !N.leb_le, N.eqb_eq. tauto.
Qed.

(** X7. A non-empty locale is accepted exactly when every code unit is an
    ASCII letter or a dash, and is then returned unchanged.  The underscore
    that the message mentions is refused, and the assertion [Cannot be empty]
    can never fail. *)
Theorem locale_parser (c : N) (s : jsstring) :
  let raw := c :: s in
  let invalid :=
    KnownError (js "Invalid config property locale: Must be a valid locale (letters and dashes/underscores). You can consult the list of codes in: https://wikipedia.org/wiki/List_of_ISO_639-1_codes") in
  (Forall letter_or_dash raw -> configParsers.locale (Some raw) = Ok (VString raw))
  /\ (~ Forall letter_or_dash raw -> configParsers.locale (Some raw) = Err invalid)
  /\ (95 ∈ raw -> configParsers.locale (Some raw) = Err invalid)
  /\ forall value,
      configParsers.locale value
      <> Err (KnownError (js "Invalid config property locale: Cannot be empty")).
Proof.
  cbn zeta.
  assert (forall l : jsstring, l <> [] -> ~ Forall letter_or_dash l ->
            configParsers.locale (Some l) = Err (KnownError (js "Invalid config property locale: Must be a valid locale (letters and dashes/underscores). You can consult the list of codes in: https://wikipedia.org/wiki/List_of_ISO_639-1_codes")))
    as Hbad.
  { intros [|a l] Hne Hnot; [done|]. unfold configParsers.locale.
    destruct (re_locale_test (a :: l)) eqn:Ht; [|reflexivity].
    by apply re_locale_test_spec in Ht. }
  split; [|split; [|split]].
  - intros Hall%re_locale_test_spec. unfold configParsers.locale.
    by rewrite Hall.
  - by apply Hbad.
  - intros Hin. apply Hbad; [done|]. intros Hall.
    rewrite Forall_forall in Hall. specialize (Hall 95 Hin).
    unfold letter_or_dash in Hall. lia.
  - intros [[|a l]|]; [done| |done]. unfold configParsers.locale.
    cbn [bool_decide negb parseAssert mbind Result_bind].
    rewrite bool_decide_eq_false_2 by done.
    cbn [negb parseAssert mbind Result_bind].
    by destruct (re_locale_test (a :: l)).
Qed.

(** ** More about [getConfig] *)

Lemma for_of_ext {S E : Type} (body1 body2 : S -> E -> Result S)
    (l : list E) (s : S) :
  (forall x s', x ∈ l -> body1 s' x = body2 s' x) ->
  for_of body1 l s = for_of body2 l s.
Proof.
  revert s. induction l as [|x rest IH]; intros s Hext; [done|].
  cbn [for_of]. rewrite (Hext x s) by (apply elem_of_cons; by left).
  destruct (body2 s x) as [s'|e]; [|done]. cbn [mbind Result_bind].
  apply IH. intros y s'' Hy. apply Hext. apply elem_of_cons. by right.
Qed.

Lemma getConfig_loop_first_failure (cli : option RawConfig) (config : RawConfig)
    (before after : list (jsstring * Parser)) (key : jsstring)
    (parser : Parser) (parsedConfig : ParsedConfig) (e : Error) :
  Forall (fun entry => exists v, entry.2 (raw_value cli config entry.1) = Ok v)
    before ->
  parser (raw_value cli config key) = Err e ->
  for_of (getConfig_body cli false config)
    (before ++ (key, parser) :: after) parsedConfig = Err e.
Proof.
  revert parsedConfig.
  induction before as [|[k p] before IH]; intros parsedConfig Hall Herr.
  { cbn [app for_of getConfig_body]. by rewrite Herr. }
  apply Forall_cons in Hall as [[v Hv] Hall]. cbn [fst snd] in Hv.
  cbn [app for_of getConfig_body]. rewrite Hv. cbn [mbind Result_bind].
  by apply IH.
Qed.

(** What a successful strict read tells: every key resolved, and the
    credential invariant holds. *)
Lemma getConfig_strict_Ok_inv (ini_parse : jsstring -> RawConfig)
    (file : option jsstring) (cli : option RawConfig) (parsed : ParsedConfig) :
  getConfig ini_parse file cli (Some false) = Ok parsed ->
  resolves cli (readConfigFile ini_parse file) parsed
  /\ credential_invariant parsed.
Proof.
  intros Hok.
  pose proof (getConfig_loop_resolves cli (readConfigFile ini_parse file)) as H.
  assert (exists result,
             for_of (getConfig_body cli false (readConfigFile ini_parse file))
               combinedParsers ∅ = Ok result) as [result Hloop].
  { unfold getConfig in Hok. cbn zeta in Hok.
    change (default false (Some false)) with false in Hok.
    destruct (for_of _ _ _) as [result|e]; [by exists result|done]. }
  rewrite Hloop in H.
  destruct (resolves_typed _ _ _ H) as (b & k & ak & ep & Hb & Hk & Hak & Hep).
  rewrite (getConfig_strict_outcome ini_parse file cli result b k ak ep
             H Hb Hk Hak Hep) in Hok.
  assert (parsed = result) as ->.
  { destruct b; [destruct ak, ep|destruct k]; congruence. }
  split; [done|]. unfold credential_invariant, non_empty.
  rewrite Hb, Hk, Hak, Hep.
  destruct b; [right|left].
  - destruct ak as [|a ak]; [done|]. destruct ep as [|a' ep]; [done|].
    split; [done|]. split; eexists; (split; [reflexivity|done]).
  - destruct k as [|a k]; [done|].
    split; [done|]. eexists. split; [reflexivity|done].
Qed.

Section MoreConfigStoreFacts.

Variable ini_parse : jsstring -> RawConfig.

(** X8. Without suppression the keys are parsed in a fixed order (the
    gateway keys, then the others) and the first parser that fails ends the
    read with its own error: the keys after it are not looked at, and no
    credential check is made. *)
Theorem getConfig_first_failure (file : option jsstring)
    (cli : option RawConfig) (before after : list (jsstring * Parser))
    (key : jsstring) (parser : Parser) (e : Error) :
  combinedParsers = before ++ (key, parser) :: after ->
  Forall (fun entry =>
            exists v,
              entry.2 (raw_value cli (readConfigFile ini_parse file) entry.1)
              = Ok v) before ->
  parser (raw_value cli (readConfigFile ini_parse file) key) = Err e ->
  getConfig ini_parse file cli (Some false) = Err e
  /\ getConfig ini_parse file cli None = Err e.
Proof.
  intros Hsplit Hall Herr. unfold getConfig. cbn zeta.
  change (default false (Some false)) with false.
  change (default false None) with false.
  rewrite Hsplit.
  by rewrite (getConfig_loop_first_failure _ _ before after key parser ∅ e
                Hall Herr).
Qed.

(** X9. [getConfig] reads the persisted file and the overrides only at the
    recognized keys: two calls whose files and override maps give the same
    raw value to every recognized key have the same outcome, whatever else
    the file or the overrides hold. *)
Theorem getConfig_recognized_keys_only (file file' : option jsstring)
    (cli cli' : option RawConfig) (suppressErrors : option bool) :
  (forall key parser,
      (key, parser) ∈ combinedParsers ->
      raw_value cli (readConfigFile ini_parse file) key
      = raw_value cli' (readConfigFile ini_parse file') key) ->
  getConfig ini_parse file cli suppressErrors
  = getConfig ini_parse file' cli' suppressErrors.
Proof.
  intros Hsame. unfold getConfig. cbn zeta.
  rewrite (for_of_ext
             (getConfig_body cli (default false suppressErrors)
                (readConfigFile ini_parse file))
             (getConfig_body cli' (default false suppressErrors)
                (readConfigFile ini_parse file'))); [done|].
  intros [key parser] parsedConfig Hin. unfold getConfig_body.
  by rewrite (Hsame key parser Hin).
Qed.

(** X11. When the strict read succeeds, the read with suppression returns
    the same mapping. *)
Theorem getConfig_strict_then_suppressed (file : option jsstring)
    (cli : option RawConfig) (parsed : ParsedConfig) :
  getConfig ini_parse file cli (Some false) = Ok parsed ->
  getConfig ini_parse file cli (Some true) = Ok parsed.
Proof.
  intros [Hres _]%getConfig_strict_Ok_inv.
  destruct (getConfig_suppressed_keys ini_parse file cli)
    as (parsedS & -> & Hlook).
  f_equal. apply map_eq. intros key. rewrite Hlook.
  specialize (Hres key).
  destruct (parser_of combinedParsers key) as [parser|]; [|done].
  by destruct Hres as (v & -> & ->).
Qed.

End MoreConfigStoreFacts.

Lemma getConfig_first_failure_witness :
  let persisted : RawConfig :=
    {[ js "OPENAI_KEY" := js "abc"; js "generate" := js "9" ]} in
  getConfig (sample_parse persisted) (Some (js "...")) None (Some false)
  = Err (KnownError (js "Invalid config property OPENAI_KEY: Must start with "
                       ++ dquote ++ js "sk-" ++ dquote))
  /\ getConfig (sample_parse persisted) (Some (js "...")) None None
     = Err (KnownError (js "Invalid config property OPENAI_KEY: Must start with "
                          ++ dquote ++ js "sk-" ++ dquote)).
Proof.
  cbn zeta.
  apply (getConfig_first_failure
           (sample_parse {[ js "OPENAI_KEY" := js "abc"; js "generate" := js "9" ]})
           (Some (js "...")) None
           [ (js "USE_AZURE", azureConfigParsers.USE_AZURE);
             (js "AZURE_OPENAI_KEY", azureConfigParsers.AZURE_OPENAI_KEY);
             (js "AZURE_OPENAI_ENDPOINT", azureConfigParsers.AZURE_OPENAI_ENDPOINT) ]
           (drop 4 combinedParsers)
           (js "OPENAI_KEY") configParsers.OPENAI_KEY).
  - reflexivity.
  - repeat (apply Forall_cons; split; [eexists; vm_compute; reflexivity|]).
    apply Forall_nil_2.
  - vm_compute. reflexivity.
Defined.

Lemma getConfig_recognized_keys_only_witness :
  let parse : jsstring -> RawConfig :=
    fun content =>
      if decide (content = js "OPENAI_KEY=sk-abc")
      then {[ js "OPENAI_KEY" := js "sk-abc" ]}
      else {[ js "OPENAI_KEY" := js "sk-abc"; js "UNKNOWN" := js "1" ]} in
  getConfig parse (Some (js "OPENAI_KEY=sk-abc" ++ nl ++ js "UNKNOWN=1")) None
    (Some false)
  = getConfig parse (Some (js "OPENAI_KEY=sk-abc")) None (Some false).
Proof.
  cbn zeta. apply getConfig_recognized_keys_only.
  intros key parser Hin. elem_of_parsers Hin; by vm_compute.
Defined.

Lemma getConfig_strict_then_suppressed_witness :
  getConfig (sample_parse {[ js "OPENAI_KEY" := js "sk-abc" ]})
    (Some (js "...")) None (Some true)
  = Ok (<[ js "OPENAI_KEY" := VString (js "sk-abc") ]> defaultConfig).
Proof.
  apply getConfig_strict_then_suppressed. vm_compute. reflexivity.
Defined.











Section ReadThenRequest.

Variable ini_parse : jsstring -> RawConfig.
Variable JSON_stringify : ChatRequest.t -> jsstring.
Variable JSON_parse : jsstring -> option ChatResponse.t.
Variable generatePrompt : jsstring -> JsNumber -> jsstring -> jsstring.
Variable exponential_notation : N -> jsstring.

Local Abbreviation createChatCompletion :=
  (createChatCompletion JSON_stringify JSON_parse exponential_notation).
Local Abbreviation generateCommitMessage :=
  (generateCommitMessage JSON_stringify JSON_parse generatePrompt
     exponential_notation).
Local Abbreviation Number_toString := (Number_toString exponential_notation).

(** The body that [generateCommitMessage] sends. *)
Local Abbreviation body_of config diff :=
  {| ChatRequest.model := model config;
     ChatRequest.messages :=
       [ (js "system",
          generatePrompt (locale config) (max_length config) (type config));
         (js "user", diff) ];
     ChatRequest.temperature := 7 # 10;
     ChatRequest.top_p := 1;
     ChatRequest.frequency_penalty := 0;
     ChatRequest.presence_penalty := 0;
     ChatRequest.max_tokens := 200;
     ChatRequest.stream := false;
     ChatRequest.n := generate config |}.

(** The request of [generateCommitMessage], in full. *)
Lemma requests_generateCommitMessage (network : HttpsRequest -> HttpsEvent)
    (config : ValidConfig) (diff : jsstring) :
  requests network (generateCommitMessage config diff)
  = [ {| url := if USE_AZURE config then AZURE_OPENAI_ENDPOINT config
                else js "https://api.openai.com/v1/chat/completions";
         port := 443;
         method := js "POST";
         headers :=
           [ (if USE_AZURE config
              then (js "api-key", AZURE_OPENAI_KEY config)
              else (js "Authorization", js "Bearer " ++ OPENAI_KEY config));
             (js "Content-Type", js "application/json");
             (js "Content-Length",
              Number_toString
                (Finite (byteLength (JSON_stringify (body_of config diff))))) ];
         request_timeout := timeout config;
         agent := match proxy config with
                  | Some (c :: s) => Some (c :: s)
                  | _ => None
                  end;
         postContent := JSON_stringify (body_of config diff) |} ].
Proof.
  unfold generateCommitMessage. cbn zeta.
  rewrite requests_try_catch, requests_bind, run_bind.
  unfold createChatCompletion at 1, httpsPost.
  cbn [mbind Async_mbind Async_bind requests].
  rewrite <- app_assoc. cbn [app]. f_equal.
  { destruct (USE_AZURE config); f_equal.
    all: by destruct (proxy config) as [[|c s]|]. }
  match goal with |- ?a ++ ?b ++ ?c = [] => assert (a = []) as -> end.
  { destruct (network _) as [response data|e|]; cbn [Async_bind requests];
      [|done..].
    destruct (statusCode response) as [[|status]|]; [done| |done].
    destruct (_ || _); [done|]. by destruct (JSON_parse data). }
  cbn [app].
  destruct (run network _) as [completion|e]; cbn [app requests]; [done|].
  by case_bool_decide.
Qed.



End ReadThenRequest.



(** ** More about [setConfigs] *)

(** The mapping that the loop of [setConfigs] builds: a key of the batch
    holds the parsed value of its last pair, any other key what it held. *)
Lemma setConfigs_loop_contents (keyValues : list (jsstring * jsstring))
    (config result : ParsedConfig) :
  for_of setConfigs_body keyValues config = Ok result ->
  forall key,
    match last_value key keyValues with
    | Some value =>
        exists parser parsed,
          parser_of combinedParsers key = Some parser
          /\ parser (Some value) = Ok parsed
          /\ result !! key = Some parsed
    | None => result !! key = config !! key
    end.
Proof.
  revert config.
  induction keyValues as [|[k value] rest IH]; intros config Hrun key.
  { by injection Hrun as <-. }
  cbn [for_of setConfigs_body] in Hrun.
  destruct (parser_of combinedParsers k) as [parser|] eqn:Hof; [|done].
  destruct (parser (Some value)) as [parsed|e] eqn:Hp; [|done].
  cbn [mbind Result_bind] in Hrun.
  specialize (IH _ Hrun key). cbn [last_value].
  destruct (last_value key rest) as [later|]; [done|].
  destruct (decide (k = key)) as [->|Hne].
  - rewrite lookup_insert_eq in IH. by exists parser, parsed.
  - by rewrite lookup_insert_ne in IH.
Qed.

Lemma setConfigs_loop_first_invalid (before after : list (jsstring * jsstring))
    (key value : jsstring) (config : ParsedConfig) :
  Forall (fun keyValue => ~ invalid_pair keyValue) before ->
  for_of setConfigs_body (before ++ (key, value) :: after) config
  = match parser_of combinedParsers key with
    | None => Err (KnownError (js "Invalid config property: " ++ key))
    | Some parser =>
        match parser (Some value) with
        | Err e => Err e
        | Ok parsed =>
            match for_of setConfigs_body before config with
            | Ok config' =>
                for_of setConfigs_body after (<[key := parsed]> config')
            | Err e => Err e
            end
        end
    end.
Proof.
  revert config.
  induction before as [|[k v] before IH]; intros config Hall.
  { cbn [app for_of setConfigs_body].
    destruct (parser_of combinedParsers key) as [parser|]; [|done].
    by destruct (parser (Some value)). }
  apply Forall_cons in Hall as [Hhead Hall].
  unfold invalid_pair in Hhead. cbn [fst snd] in Hhead.
  cbn [app for_of setConfigs_body].
  destruct (parser_of combinedParsers k) as [p|]; [|done].
  destruct (p (Some v)) as [parsed|e]; [|by destruct Hhead; eexists].
  cbn [mbind Result_bind]. by apply IH.
Qed.

Section MoreSetConfigsFacts.

Variable ini_parse : jsstring -> RawConfig.
Variable ini_stringify : ParsedConfig -> jsstring.

(** X14. When [setConfigs] succeeds, the file is rewritten from a mapping in
    which every key of the batch holds the parsed value of the last pair
    that names it, and every other key, recognized or not, holds the string
    that the file held before (or is absent as before). *)
Theorem setConfigs_written_mapping (file file' : option jsstring)
    (keyValues : list (jsstring * jsstring)) :
  setConfigs ini_parse ini_stringify file keyValues = (Ok tt, file') ->
  exists config : ParsedConfig,
    file' = Some (ini_stringify config)
    /\ forall key,
        match last_value key keyValues with
        | Some value =>
            exists parser parsed,
              parser_of combinedParsers key = Some parser
              /\ parser (Some value) = Ok parsed
              /\ config !! key = Some parsed
        | None =>
            config !! key = VString <$> readConfigFile ini_parse file !! key
        end.
Proof.
  unfold setConfigs. cbn zeta.
  destruct (for_of _ _ _) as [config|e] eqn:Hrun; [|done].
  intros [= <-]. exists config. split; [done|]. intros key.
  pose proof (setConfigs_loop_contents _ _ _ Hrun key) as H.
  destruct (last_value key keyValues); [done|]. by rewrite H, lookup_fmap.
Qed.

(** X15. [setConfigs] stops at the first invalid pair of the batch: the
    error is [Invalid config property: key] when the key of that pair is not
    recognized and the error of its parser otherwise, whatever comes after
    it, and the file is left as it was. *)
Theorem setConfigs_first_invalid (file : option jsstring)
    (before after : list (jsstring * jsstring)) (key value : jsstring) :
  Forall (fun keyValue => ~ invalid_pair keyValue) before ->
  invalid_pair (key, value) ->
  setConfigs ini_parse ini_stringify file (before ++ (key, value) :: after)
  = (match parser_of combinedParsers key with
     | None => Err (KnownError (js "Invalid config property: " ++ key))
     | Some parser =>
         match parser (Some value) with
         | Err e => Err e
         | Ok _ => Ok tt
         end
     end, file)
  /\ fst (setConfigs ini_parse ini_stringify file
            (before ++ (key, value) :: after))
     <> Ok tt.
Proof.
  intros Hall Hinvalid. unfold setConfigs. cbn zeta.
  rewrite (setConfigs_loop_first_invalid before after key value _ Hall).
  unfold invalid_pair in Hinvalid. cbn [fst snd] in Hinvalid.
  destruct (parser_of combinedParsers key) as [parser|]; [|done].
  destruct Hinvalid as [e ->]. done.
Qed.

End MoreSetConfigsFacts.

Lemma setConfigs_written_mapping_witness :
  exists config : ParsedConfig,
    Some (sample_stringify
            (<[ js "timeout" := VNumber (Finite 20000) ]>
               (<[ js "locale" := VString (js "de") ]>
                  {[ js "UNKNOWN" := VString (js "1") ]})))
    = Some (sample_stringify config)
    /\ forall key,
        match last_value key [ (js "timeout", js "600"); (js "locale", js "de");
                               (js "timeout", js "20000") ] with
        | Some value =>
            exists parser parsed,
              parser_of combinedParsers key = Some parser
              /\ parser (Some value) = Ok parsed
              /\ config !! key = Some parsed
        | None =>
            config !! key
            = VString <$> readConfigFile (sample_parse {[ js "UNKNOWN" := js "1" ]})
                            (Some (js "UNKNOWN=1")) !! key
        end.
Proof.
  apply (setConfigs_written_mapping
           (sample_parse {[ js "UNKNOWN" := js "1" ]}) sample_stringify
           (Some (js "UNKNOWN=1"))).
  vm_compute. reflexivity.
Defined.

Lemma setConfigs_first_invalid_witness :
  setConfigs (sample_parse ∅) sample_stringify (Some (js "locale=en"))
    ([ (js "timeout", js "20000") ] ++ (js "UNKNOWN", js "1")
       :: [ (js "OPENAI_KEY", js "abc") ])
  = (Err (KnownError (js "Invalid config property: UNKNOWN")),
     Some (js "locale=en"))
  /\ fst (setConfigs (sample_parse ∅) sample_stringify (Some (js "locale=en"))
            ([ (js "timeout", js "20000") ] ++ (js "UNKNOWN", js "1")
               :: [ (js "OPENAI_KEY", js "abc") ]))
     <> Ok tt.
Proof.
  apply (setConfigs_first_invalid (sample_parse ∅) sample_stringify
           (Some (js "locale=en")) [ (js "timeout", js "20000") ]
           [ (js "OPENAI_KEY", js "abc") ] (js "UNKNOWN") (js "1")).
  - apply Forall_cons. split; [|apply Forall_nil_2].
    unfold invalid_pair. cbn [fst snd].
    change (parser_of combinedParsers (js "timeout"))
      with (Some configParsers.timeout).
    intros [e He]. vm_compute in He. discriminate He.
  - unfold invalid_pair. by vm_compute.
Defined.

(** ** More about sanitizing *)

Lemma is_whitespace_spec (c : N) :
  is_whitespace c = true
  <-> c ∈ [9; 10; 11; 12; 13; 32; 160; 5760; 8232; 8233; 8239; 8287; 12288; 65279]
      \/ 8192 <= c <= 8202.
Proof.
  unfold is_whitespace.
  rewrite orb_true_iff, andb_true_iff, !N.leb_le, bool_decide_eq_true. tauto.
Qed.

Lemma is_line_break_whitespace (c : N) :
  is_line_break c = true -> is_whitespace c = true.
Proof.
  unfold is_line_break.
  intros [->%N.eqb_eq| ->%N.eqb_eq]%orb_true_iff; reflexivity.
Qed.

Lemma is_word_not_whitespace (c : N) :
  is_word c = true -> is_whitespace c = false.
Proof.
  intros Hw. destruct (is_whitespace c) eqn:Hws; [|done]. exfalso.
  apply is_whitespace_spec in Hws.
  unfold is_word, is_upper, is_lower, is_digit in Hw.
  rewrite !orb_true_iff, !andb_true_iff, !N.leb_le, N.eqb_eq in Hw.
  rewrite !elem_of_cons, elem_of_nil in Hws. lia.
Qed.

Lemma trimStart_id (s : jsstring) :
  (forall c, head s = Some c -> is_whitespace c = false) -> trimStart s = s.
Proof.
  destruct s as [|c s]; [done|]. intros H. cbn. by rewrite (H c eq_refl).
Qed.

Lemma trimEnd_id (s : jsstring) :
  (forall c, last s = Some c -> is_whitespace c = false) -> trimEnd s = s.
Proof.
  induction s as [|c s IH]; [done|]. intros H. cbn [trimEnd].
  destruct s as [|d s].
  - cbn. by rewrite (H c eq_refl).
  - rewrite IH; [done|]. intros c' Hc'. apply H. by rewrite last_cons_cons.
Qed.

Lemma trim_id (s : jsstring) :
  (forall c, head s = Some c -> is_whitespace c = false) ->
  (forall c, last s = Some c -> is_whitespace c = false) ->
  trim s = s.
Proof.
  intros Hhd Hlast. unfold trim. rewrite (trimStart_id s Hhd).
  by apply trimEnd_id.
Qed.

Lemma head_remove_line_breaks (s : jsstring) :
  (forall c, head s = Some c -> is_whitespace c = false) ->
  head (remove_line_breaks s) = head s.
Proof.
  destruct s as [|c s]; [done|]. intros H. unfold remove_line_breaks.
  rewrite filter_cons_True; [done|].
  specialize (H c eq_refl). destruct (is_line_break c) eqn:Hlb; [|done].
  apply is_line_break_whitespace in Hlb. congruence.
Qed.

Lemma last_remove_line_breaks (s : jsstring) :
  (forall c, last s = Some c -> is_whitespace c = false) ->
  last (remove_line_breaks s) = last s.
Proof.
  destruct (last s) as [c|] eqn:Hlast.
  - intros H. apply last_Some in Hlast as [s' ->].
    unfold remove_line_breaks. rewrite filter_app, filter_cons_True.
    + by rewrite filter_nil, last_snoc.
    + specialize (H c eq_refl). destruct (is_line_break c) eqn:Hlb; [|done].
      apply is_line_break_whitespace in Hlb. congruence.
  - intros _. apply last_None in Hlast as ->. done.
Qed.

Lemma remove_line_breaks_id (s : jsstring) :
  Forall (fun c => is_line_break c = false) s -> remove_line_breaks s = s.
Proof.
  unfold remove_line_breaks. induction 1 as [|c s Hc Hs IH]; [done|].
  by rewrite filter_cons_True, IH.
Qed.

(** The outcome of the last replacement: the text as it was, or the text
    without its final period when a word character precedes it. *)
Lemma replace_word_period_end_cases (s : jsstring) :
  (replace_word_period_end s = s
   /\ forall p w, s = p ++ [w; 46] -> is_word w = false)
  \/ exists p w, s = p ++ [w; 46] /\ is_word w = true
                 /\ replace_word_period_end s = p ++ [w].
Proof.
  induction s as [|c rest IH].
  { left. split; [done|]. intros p w H. by destruct p. }
  cbn [replace_word_period_end]. case_bool_decide as Hrest.
  - subst rest. destruct (is_word c) eqn:Hw; cbn [andb].
    + right. by exists [], c.
    + left. split; [done|]. intros p w Heq.
      assert (p = []) as ->.
      { apply (f_equal length) in Heq. rewrite length_app in Heq.
        destruct p; [done|]. cbn in Heq. lia. }
      by injection Heq as <-.
  - rewrite andb_false_r.
    destruct IH as [[-> Hno]|(p & w & -> & Hw & ->)].
    + left. split; [done|]. intros p w Heq.
      destruct p as [|a p].
      * injection Heq as _ Heq. by subst rest.
      * injection Heq as _ Heq. by eapply Hno.
    + right. by exists (c :: p), w.
Qed.

(** What a sanitized text looks like. *)
Lemma sanitizeMessage_shape (message : jsstring) :
  Forall (fun c => is_line_break c = false) (sanitizeMessage message)
  /\ (forall c, head (sanitizeMessage message) = Some c -> is_whitespace c = false)
  /\ (forall c, last (sanitizeMessage message) = Some c -> is_whitespace c = false)
  /\ (forall p w,
        sanitizeMessage message = p ++ [w; 46] -> is_word w = false).
Proof.
  destruct (trim_spec message) as (l & r & _ & _ & _ & Hhd & Hlast).
  unfold sanitizeMessage.
  set (t := remove_line_breaks (trim message)).
  assert (Forall (fun c => is_line_break c = false) t) as Hlb.
  { subst t. unfold remove_line_breaks. apply Forall_forall.
    by intros c [? _]%list_elem_of_filter. }
  assert (forall c, head t = Some c -> is_whitespace c = false) as Hhd'.
  { subst t. intros c. rewrite head_remove_line_breaks by exact Hhd.
    apply Hhd. }
  assert (forall c, last t = Some c -> is_whitespace c = false) as Hlast'.
  { subst t. intros c. rewrite last_remove_line_breaks by exact Hlast.
    apply Hlast. }
  destruct (replace_word_period_end_cases t)
    as [[-> Hno]|(p & w & Ht & Hw & ->)]; [done|].
  rewrite Ht in Hlb, Hhd'. split; [|split; [|split]].
  - apply Forall_app in Hlb as [Hp Hl].
    apply Forall_app. split; [done|].
    apply Forall_cons in Hl as [? _]. by apply Forall_singleton.
  - intros c Hc. apply Hhd'. by destruct p.
  - intros c. rewrite last_snoc. intros [= <-].
    by apply is_word_not_whitespace.
  - intros p' w' Heq.
    change [w'; 46] with ([w'] ++ [46]) in Heq. rewrite app_assoc in Heq.
    apply app_inj_tail in Heq as [_ ->]. by vm_compute in Hw.
Qed.

(** X16. A sanitized text holds no line feed and no carriage return, and
    neither begins nor ends with whitespace; nor does it end with a period
    that follows a word character. *)
Theorem sanitizeMessage_clean (message : jsstring) :
  Forall (fun c => c <> 10 /\ c <> 13) (sanitizeMessage message)
  /\ (forall c, head (sanitizeMessage message) = Some c -> is_whitespace c = false)
  /\ (forall c, last (sanitizeMessage message) = Some c -> is_whitespace c = false)
  /\ (forall p w,
        sanitizeMessage message = p ++ [w; 46] -> is_word w = false).
Proof.
  destruct (sanitizeMessage_shape message) as (Hlb & Hrest).
  split; [|done]. eapply Forall_impl; [exact Hlb|]. intros c Hc. cbn beta in Hc.
  unfold is_line_break in Hc.
  by apply orb_false_iff in Hc as [?%N.eqb_neq ?%N.eqb_neq].
Qed.

(** X17. Sanitizing is idempotent: a sanitized text is left as it is. *)
Theorem sanitizeMessage_idempotent (message : jsstring) :
  sanitizeMessage (sanitizeMessage message) = sanitizeMessage message.
Proof.
  destruct (sanitizeMessage_shape message) as (Hlb & Hhd & Hlast & Hno).
  unfold sanitizeMessage at 1.
  rewrite (trim_id _ Hhd Hlast), (remove_line_breaks_id _ Hlb).
  by apply replace_word_period_end_no_match.
Qed.

(** ** More about deduplication *)

Lemma first_occurrences_NoDup (l : list jsstring) :
  NoDup l -> first_occurrences l = l.
Proof.
  induction 1 as [|x l Hx Hl IH]; [done|]. cbn [first_occurrences].
  rewrite IH. f_equal. clear IH Hl. induction l as [|y l IH]; [done|].
  apply not_elem_of_cons in Hx as [Hne Hx].
  rewrite filter_cons_True by done. by rewrite IH.
Qed.

Lemma length_first_occurrences (l : list jsstring) :
  (length (first_occurrences l) <= length l)%nat.
Proof.
  induction l as [|x l IH]; [done|]. cbn [first_occurrences length].
  pose proof (length_filter (fun y => y <> x) (first_occurrences l)). lia.
Qed.

(** X18. Deduplication leaves a list without duplicates as it is, so it is
    idempotent; it never lengthens a list. *)
Theorem deduplicateMessages_stable (array : list jsstring) :
  (NoDup array -> deduplicateMessages array = array)
  /\ deduplicateMessages (deduplicateMessages array) = deduplicateMessages array
  /\ (length (deduplicateMessages array) <= length array)%nat.
Proof.
  rewrite !deduplicateMessages_first_occurrences. split; [|split].
  - apply first_occurrences_NoDup.
  - apply first_occurrences_NoDup, NoDup_first_occurrences.
  - apply length_first_occurrences.
Qed.

(** ** More about the completion client *)

Section MoreCompletionClientFacts.

Variable JSON_stringify : ChatRequest.t -> jsstring.
Variable JSON_parse : jsstring -> option ChatResponse.t.
Variable generatePrompt : jsstring -> JsNumber -> jsstring -> jsstring.
Variable exponential_notation : N -> jsstring.

Local Abbreviation createChatCompletion :=
  (createChatCompletion JSON_stringify JSON_parse exponential_notation).
Local Abbreviation generateCommitMessage :=
  (generateCommitMessage JSON_stringify JSON_parse generatePrompt
     exponential_notation).
Local Abbreviation Number_toString := (Number_toString exponential_notation).

(** The round trip that [generateCommitMessage] makes. *)
Local Abbreviation round_trip config diff :=
  (createChatCompletion (USE_AZURE config)
     (if USE_AZURE config then AZURE_OPENAI_ENDPOINT config
      else js "https://api.openai.com/v1/chat/completions")
     (if USE_AZURE config then AZURE_OPENAI_KEY config else OPENAI_KEY config)
     {| ChatRequest.model := model config;
        ChatRequest.messages :=
          [ (js "system",
             generatePrompt (locale config) (max_length config) (type config));
            (js "user", diff) ];
        ChatRequest.temperature := 7 # 10;
        ChatRequest.top_p := 1;
        ChatRequest.frequency_penalty := 0;
        ChatRequest.presence_penalty := 0;
        ChatRequest.max_tokens := 200;
        ChatRequest.stream := false;
        ChatRequest.n := generate config |}
     (timeout config) (proxy config)).

(** [generateCommitMessage] in terms of the outcome of the round trip. *)
Lemma run_generateCommitMessage (network : HttpsRequest -> HttpsEvent)
    (config : ValidConfig) (diff : jsstring) :
  run network (generateCommitMessage config diff)
  = match run network (round_trip config diff) with
    | Ok completion =>
        Ok (deduplicateMessages
              (candidate_texts (ChatResponse.choices completion)))
    | Err e =>
        if bool_decide (code_of e = Some (js "ENOTFOUND")) then
          Err (KnownError
                 (js "Error connecting to " ++ template (hostname_of e)
                  ++ js " (" ++ template (syscall_of e)
                  ++ js "). Are you connected to the internet?"))
        else Err e
    end.
Proof.
  unfold generateCommitMessage. cbn zeta.
  rewrite run_try_catch, run_bind.
  destruct (run network (round_trip config diff)) as [completion|e];
    [reflexivity|].
  by case_bool_decide.
Qed.

(** The outcome of the round trip when the request does not get a
    response. *)
Lemma run_createChatCompletion_no_response
    (network : HttpsRequest -> HttpsEvent) (useAzure : bool)
    (target apiKey : jsstring) (json : ChatRequest.t) (limit : JsNumber)
    (tunnel : option jsstring) :
  (forall request, exists e,
      network request = RequestError e \/ network request = RequestTimeout) ->
  exists request,
    run network (createChatCompletion useAzure target apiKey json limit tunnel)
    = match network request with
      | RequestError e => Err e
      | _ =>
          Err (KnownError
                 (js "Time out error: request took over "
                  ++ Number_toString limit
                  ++ js "ms. Try increasing the `timeout` config, or checking the OpenAI API status https://status.openai.com"))
      end.
Proof.
  intros Hnet. unfold createChatCompletion, httpsPost.
  cbn [mbind Async_mbind Async_bind run]. eexists.
  match goal with
  | |- context [network ?r] =>
      destruct (Hnet r) as [e [H|H]]; rewrite !H
  end; reflexivity.
Qed.


(** X20. When the request ends with an error of the transport,
    [generateCommitMessage] fails with the cannot-reach-host error that
    names the host and the failing call when the code of the error is
    [ENOTFOUND], and with the error itself, unchanged, for any other error. *)
Theorem generateCommitMessage_transport_error
    (network : HttpsRequest -> HttpsEvent) (config : ValidConfig)
    (diff : jsstring) (e : Error) :
  (forall request, network request = RequestError e) ->
  (code_of e = Some (js "ENOTFOUND") ->
   run network (generateCommitMessage config diff)
   = Err (KnownError
            (js "Error connecting to " ++ template (hostname_of e)
             ++ js " (" ++ template (syscall_of e)
             ++ js "). Are you connected to the internet?")))
  /\ (code_of e <> Some (js "ENOTFOUND") ->
      run network (generateCommitMessage config diff) = Err e).
Proof.
  intros Hnet.
  rewrite run_generateCommitMessage.
  destruct (run_createChatCompletion_no_response network (USE_AZURE config)
              (if USE_AZURE config then AZURE_OPENAI_ENDPOINT config
               else js "https://api.openai.com/v1/chat/completions")
              (if USE_AZURE config then AZURE_OPENAI_KEY config
               else OPENAI_KEY config)
              {| ChatRequest.model := model config;
                 ChatRequest.messages :=
                   [ (js "system",
                      generatePrompt (locale config) (max_length config)
                        (type config));
                     (js "user", diff) ];
                 ChatRequest.temperature := 7 # 10;
                 ChatRequest.top_p := 1;
                 ChatRequest.frequency_penalty := 0;
                 ChatRequest.presence_penalty := 0;
                 ChatRequest.max_tokens := 200;
                 ChatRequest.stream := false;
                 ChatRequest.n := generate config |}
              (timeout config) (proxy config)) as [request ->].
  { intros request. exists e. left. apply Hnet. }
  rewrite Hnet. split; intros Hcode.
  - by rewrite bool_decide_eq_true_2.
  - by rewrite bool_decide_eq_false_2.
Qed.

(** X21. An error made from a response goes through the [catch] of
    [generateCommitMessage] unchanged: the API error of a status outside
    [200, 299], the API error of a response without status code (printed as
    [undefined]), and the [SyntaxError] of a body that is not JSON. *)
Theorem generateCommitMessage_response_error
    (network : HttpsRequest -> HttpsEvent) (config : ValidConfig)
    (diff : jsstring) (response : IncomingMessage) (data : jsstring) :
  (forall request, network request = ResponseEnd response data) ->
  let body := match data with [] => [] | _ :: _ => nl ++ nl ++ data end in
  let outcome := run network (generateCommitMessage config diff) in
  (statusCode response = None ->
   outcome = Err (KnownError
                    (js "API Error: undefined - "
                     ++ template (statusMessage response) ++ body)))
  /\ (forall status,
        statusCode response = Some status ->
        status < 200 \/ 299 < status ->
        outcome
        = Err (KnownError
                 (js "API Error: " ++ Number_toString (Finite status)
                  ++ js " - " ++ template (statusMessage response) ++ body
                  ++ (if status =? 500
                      then nl ++ nl
                           ++ js "Check the API status: https://status.openai.com"
                      else []))))
  /\ (forall status,
        statusCode response = Some status ->
        200 <= status <= 299 ->
        JSON_parse data = None ->
        outcome = Err SyntaxError).
Proof.
  intros Hnet. cbn zeta.
  rewrite run_generateCommitMessage.
  destruct response as [code text]. cbn [statusCode statusMessage].
  split; [|split].
  - intros ->. unfold createChatCompletion, httpsPost.
    cbn [mbind Async_mbind Async_bind run]. rewrite Hnet.
    cbn [Async_bind statusCode statusMessage run].
    rewrite bool_decide_eq_false_2 by done.
    rewrite bool_decide_eq_false_2 by done.
    destruct data; rewrite <- ?app_assoc, ?app_nil_r; reflexivity.
  - intros status -> Hout.
    erewrite run_createChatCompletion by exact Hnet.
    destruct (N.leb_spec 200 status), (N.leb_spec status 299); try lia;
      cbn [andb]; by rewrite bool_decide_eq_false_2.
  - intros status -> [Hlo Hhi] Hparse.
    erewrite run_createChatCompletion by exact Hnet.
    destruct (N.leb_spec 200 status), (N.leb_spec status 299); try lia.
    cbn [andb]. rewrite Hparse. by rewrite bool_decide_eq_false_2.
Qed.

(** X22. The request of [generateCommitMessage] is the same whatever the
    network answers: a POST on port 443 whose body is the JSON of the model,
    the system prompt for the locale, length and commit type, the diff as
    the user message, the fixed sampling parameters, streaming off and the
    configured count; it carries the configured timeout, the length of the
    body in bytes, and an agent only for a non-empty proxy. *)
Theorem generateCommitMessage_request_contents
    (network : HttpsRequest -> HttpsEvent) (config : ValidConfig)
    (diff : jsstring) :
  let json :=
    {| ChatRequest.model := model config;
       ChatRequest.messages :=
         [ (js "system",
            generatePrompt (locale config) (max_length config) (type config));
           (js "user", diff) ];
       ChatRequest.temperature := 7 # 10;
       ChatRequest.top_p := 1;
       ChatRequest.frequency_penalty := 0;
       ChatRequest.presence_penalty := 0;
       ChatRequest.max_tokens := 200;
       ChatRequest.stream := false;
       ChatRequest.n := generate config |} in
  exists request,
    requests network (generateCommitMessage config diff) = [request]
    /\ port request = 443
    /\ method request = js "POST"
    /\ postContent request = JSON_stringify json
    /\ (js "Content-Length",
        Number_toString (Finite (byteLength (JSON_stringify json))))
       ∈ headers request
    /\ (js "Content-Type", js "application/json") ∈ headers request
    /\ request_timeout request = timeout config
    /\ agent request = match proxy config with
                       | Some [] | None => None
                       | Some tunnel => Some tunnel
                       end.
Proof.
  cbn zeta. rewrite requests_generateCommitMessage. eexists.
  split; [reflexivity|]. cbn [port method postContent headers request_timeout agent].
  repeat split.
  - do 2 (apply elem_of_cons; right). apply elem_of_cons. by left.
  - apply elem_of_cons; right. apply elem_of_cons. by left.
  - by destruct (proxy config) as [[|c s]|].
Qed.


End MoreCompletionClientFacts.


Lemma generateCommitMessage_transport_error_witness :
  let reset := NodeError (Some (js "ECONNRESET")) None (Some (js "read")) in
  (code_of reset = Some (js "ENOTFOUND") ->
   run (fun _ => RequestError reset)
     (generateCommitMessage (fun _ => js "{}") (fun _ => Some sample_completion)
        (fun _ _ _ => js "prompt") (fun _ => js "1e+21")
        sample_config (js "diff --git"))
   = Err (KnownError
            (js "Error connecting to " ++ template (hostname_of reset)
             ++ js " (" ++ template (syscall_of reset)
             ++ js "). Are you connected to the internet?")))
  /\ (code_of reset <> Some (js "ENOTFOUND") ->
      run (fun _ => RequestError reset)
        (generateCommitMessage (fun _ => js "{}") (fun _ => Some sample_completion)
           (fun _ _ _ => js "prompt") (fun _ => js "1e+21")
           sample_config (js "diff --git"))
      = Err reset).
Proof.
  cbn zeta.
  apply (generateCommitMessage_transport_error (fun _ => js "{}")
           (fun _ => Some sample_completion) (fun _ _ _ => js "prompt")
           (fun _ => js "1e+21")
           (fun _ => RequestError
                       (NodeError (Some (js "ECONNRESET")) None (Some (js "read"))))).
  reflexivity.
Defined.

Lemma generateCommitMessage_response_error_witness :
  run (fun _ => ResponseEnd {| statusCode := None; statusMessage := None |} [])
    (generateCommitMessage (fun _ => js "{}") (fun _ => Some sample_completion)
       (fun _ _ _ => js "prompt") (fun _ => js "1e+21")
       sample_config (js "diff --git"))
  = Err (KnownError (js "API Error: undefined - undefined")).
Proof.
  destruct (generateCommitMessage_response_error (fun _ => js "{}")
              (fun _ => Some sample_completion) (fun _ _ _ => js "prompt")
              (fun _ => js "1e+21")
              (fun _ => ResponseEnd {| statusCode := None; statusMessage := None |} [])
              sample_config (js "diff --git")
              {| statusCode := None; statusMessage := None |} [])
    as [H _]; [reflexivity|].
  rewrite H by reflexivity. reflexivity.
Defined.


Section OverrideFacts.

Variable ini_parse : jsstring -> RawConfig.

(** X10. An override shadows the persisted value of its key: two persisted
    files that agree on the recognized keys that the override map leaves out
    give the same outcome under that map. *)
Theorem getConfig_override_shadows_file (file file' : option jsstring)
    (cli : RawConfig) (suppressErrors : option bool) :
  (forall key parser,
      (key, parser) ∈ combinedParsers ->
      cli !! key = None ->
      readConfigFile ini_parse file !! key
      = readConfigFile ini_parse file' !! key) ->
  getConfig ini_parse file (Some cli) suppressErrors
  = getConfig ini_parse file' (Some cli) suppressErrors.
Proof.
  intros Hsame. unfold getConfig. cbn zeta.
  rewrite (for_of_ext
             (getConfig_body (Some cli) (default false suppressErrors)
                (readConfigFile ini_parse file))
             (getConfig_body (Some cli) (default false suppressErrors)
                (readConfigFile ini_parse file'))); [done|].
  intros [key parser] parsedConfig Hin. unfold getConfig_body, raw_value.
  cbn [mbind option_bind]. destruct (cli !! key) eqn:Hcli; [done|].
  by rewrite (Hsame key parser Hin Hcli).
Qed.

End OverrideFacts.

Lemma getConfig_override_shadows_file_witness :
  let parse : jsstring -> RawConfig :=
    fun content =>
      if decide (content = js "locale=fr")
      then {[ js "locale" := js "fr"; js "OPENAI_KEY" := js "sk-abc" ]}
      else {[ js "locale" := js "not a locale"; js "OPENAI_KEY" := js "sk-abc" ]} in
  getConfig parse (Some (js "locale=fr")) (Some {[ js "locale" := js "de" ]})
    (Some false)
  = getConfig parse (Some (js "locale=not a locale"))
      (Some {[ js "locale" := js "de" ]}) (Some false).
Proof.
  cbn zeta. apply getConfig_override_shadows_file.
  intros key parser Hin. elem_of_parsers Hin; by vm_compute.
Defined.
